(** * botlegi: the ChronoLegi watcher, embedded and verified

    The bot of [src/index.ts] scrapes the ChronoLegi timeline of a legal
    code, extracts the modifications published under the current version
    ([parseLegiData]), renders them as size-bounded Discord embeds
    ([formatEmbeds]) and, every hour, compares the number of version items
    with the last logged observation ([processLogUpdates]).

    The three functions are embedded shallowly.  What the repository takes
    from its dependencies is modelled next to them:
    - JavaScript strings are sequences of UTF-16 code units ([Js.str]), so
      that [.length] is [List.length];
    - the result of [cheerio.load] is a tree of nodes ([Node]); the HTML
      tokenizer itself is the library's and the functions below start from
      its result;
    - cheerio selections are lists of nodes tagged with their position in
      the document, in document order;
    - the [EmbedBuilder] of discord.js keeps what its setters accept and
      throws on the rest; a call that throws has [None] for result. *)

From Stdlib Require Import String Ascii.
From Stdlib Require Import List NArith ZArith Bool Arith Lia.
From Stdlib Require Import Sorted.
From Stdlib Require Decimal.
Import ListNotations.

Set Implicit Arguments.

(* ================================================================== *)
(** ** JavaScript strings *)

Module Js.

(** A string is its sequence of UTF-16 code units. *)
Definition str := list N.

(** ASCII literals of the source. *)
Definition lit (s : string) : str :=
  map N_of_ascii (list_ascii_of_string s).
Arguments lit s%_string.

Fixpoint eqb (a b : str) : bool :=
  match a, b with
  | [], [] => true
  | x :: a', y :: b' => N.eqb x y && eqb a' b'
  | _, _ => false
  end.

(** [WhiteSpace] and [LineTerminator] of ECMAScript: what [trim] strips
    and what [\s] matches. *)
Definition isWhiteSpace (c : N) : bool :=
  existsb (N.eqb c)
    [9; 10; 11; 12; 13; 32; 160; 5760; 8232; 8233; 8239; 8287; 12288; 65279]%N
  || (N.leb 8192 c && N.leb c 8202).

Fixpoint trimStart (s : str) : str :=
  match s with
  | c :: s' => if isWhiteSpace c then trimStart s' else s
  | [] => []
  end.

Definition trimEnd (s : str) : str := rev (trimStart (rev s)).

Definition trim (s : str) : str := trimEnd (trimStart s).

Fixpoint startsWith (s pat : str) : bool :=
  match pat, s with
  | [], _ => true
  | p :: pat', c :: s' => N.eqb p c && startsWith s' pat'
  | _ :: _, [] => false
  end.

(** [s.includes(pat)] *)
Fixpoint includes (s pat : str) : bool :=
  startsWith s pat ||
  match s with
  | [] => false
  | _ :: s' => includes s' pat
  end.

(** [xs.join(sep)] *)
Fixpoint join (sep : str) (xs : list str) : str :=
  match xs with
  | [] => []
  | [x] => x
  | x :: xs' => x ++ sep ++ join sep xs'
  end.

(** [s.padStart(n, c)] for a one-unit pad string. *)
Definition padStart (n : nat) (c : N) (s : str) : str :=
  repeat c (n - length s) ++ s.

Fixpoint ofUint (d : Decimal.uint) : str :=
  match d with
  | Decimal.Nil => []
  | Decimal.D0 d' => 48%N :: ofUint d'
  | Decimal.D1 d' => 49%N :: ofUint d'
  | Decimal.D2 d' => 50%N :: ofUint d'
  | Decimal.D3 d' => 51%N :: ofUint d'
  | Decimal.D4 d' => 52%N :: ofUint d'
  | Decimal.D5 d' => 53%N :: ofUint d'
  | Decimal.D6 d' => 54%N :: ofUint d'
  | Decimal.D7 d' => 55%N :: ofUint d'
  | Decimal.D8 d' => 56%N :: ofUint d'
  | Decimal.D9 d' => 57%N :: ofUint d'
  end.

(** [n.toString()] of a non-negative integer, and its use in a template. *)
Definition ofN (n : N) : str := ofUint (N.to_uint n).

(** The whitespace-separated words of a string (how a [class] attribute
    is read). *)
Fixpoint wordsFrom (cur : str) (s : str) : list str :=
  match s with
  | [] => match cur with [] => [] | _ => [rev cur] end
  | c :: s' =>
      if isWhiteSpace c
      then match cur with
           | [] => wordsFrom [] s'
           | _ => rev cur :: wordsFrom [] s'
           end
      else wordsFrom (c :: cur) s'
  end.

Definition words (s : str) : list str := wordsFrom [] s.

(** [a + b] where [b] may be [undefined]: string concatenation converts
    [undefined] to the nine letters of its name. *)
Definition plus (a : str) (b : option str) : str :=
  a ++ match b with
       | Some v => v
       | None => lit "undefined"
       end.

(** Truthiness of a string. *)
Definition truthy (s : str) : bool :=
  match s with
  | [] => false
  | _ => true
  end.

(** [a < b] on strings: lexicographic on code units. *)
Fixpoint ltb (a b : str) : bool :=
  match a, b with
  | _, [] => false
  | [], _ :: _ => true
  | x :: a', y :: b' => N.ltb x y || (N.eqb x y && ltb a' b')
  end.

End Js.

(* ================================================================== *)
(** ** The document tree and cheerio selections *)

Module Dom.

#[local] Unset Elimination Schemes.

Inductive Node : Type :=
| Text (data : Js.str)
| Comment (data : Js.str)
| Elem (name : Js.str) (attribs : list (Js.str * Js.str)) (children : list Node).

#[local] Set Elimination Schemes.

(** The children of the root node that [cheerio.load] returns: the
    [html] element, with the doctype or comments that may surround it. *)
Definition Document := list Node.

Definition children_of (n : Node) : list Node :=
  match n with
  | Elem _ _ cs => cs
  | _ => []
  end.

Fixpoint lookup (name : Js.str) (attribs : list (Js.str * Js.str)) : option Js.str :=
  match attribs with
  | [] => None
  | (k, v) :: rest => if Js.eqb k name then Some v else lookup name rest
  end.

Definition getAttributeValue (n : Node) (name : Js.str) : option Js.str :=
  match n with
  | Elem _ a _ => lookup name a
  | _ => None
  end.

(** [textContent] of domutils: the text nodes below a node, comments
    left out. *)
Fixpoint textContent (n : Node) : Js.str :=
  match n with
  | Text d => d
  | Comment _ => []
  | Elem _ _ cs => flat_map textContent cs
  end.

(** *** Selectors

    The selectors of the source are chains of compound selectors joined
    by the descendant combinator. *)

Inductive Test : Type :=
| Tag (name : Js.str)                       (* a, h4, li *)
| Class (c : Js.str)                        (* .c *)
| Id (i : Js.str)                           (* #i *)
| AttrEquals (name value : Js.str)          (* [name='value'] *)
| AttrAny (name value : Js.str).            (* [name*='value'] *)

Definition Compound := list Test.

(** Outermost compound first, as written. *)
Definition Selector := list Compound.

(** An element as the matcher sees it: its name and attributes. *)
Definition Head := (Js.str * list (Js.str * Js.str))%type.

Definition hasWord (w : Js.str) (v : option Js.str) : bool :=
  match v with
  | Some s => existsb (Js.eqb w) (Js.words s)
  | None => false
  end.

Definition test (t : Test) (h : Head) : bool :=
  match t with
  | Tag n => Js.eqb n (fst h)
  | Class c => hasWord c (lookup (Js.lit "class") (snd h))
  | Id i =>
      match lookup (Js.lit "id") (snd h) with
      | Some v => Js.eqb v i
      | None => false
      end
  | AttrEquals n v =>
      match lookup n (snd h) with
      | Some w => Js.eqb w v
      | None => false
      end
  | AttrAny n v =>
      match lookup n (snd h) with
      | Some w => Js.truthy v && Js.includes w v
      | None => false
      end
  end.

Definition matchCompound (c : Compound) (h : Head) : bool :=
  forallb (fun t => test t h) c.

(** The descendant combinator: walk up the ancestors (nearest first)
    until one matches the next compound and the rest of the chain. *)
Fixpoint matchAncestors (rsel : list Compound) (anc : list Head) {struct rsel} : bool :=
  match rsel with
  | [] => true
  | c :: rest =>
      (fix up (anc : list Head) : bool :=
         match anc with
         | [] => false
         | a :: anc' => (matchCompound c a && matchAncestors rest anc') || up anc'
         end) anc
  end.

(** [rsel] is the selector reversed: innermost compound first. *)
Definition matches (rsel : list Compound) (anc : list Head) (h : Head) : bool :=
  match rsel with
  | [] => false
  | c :: rest => matchCompound c h && matchAncestors rest anc
  end.

(** A position in the document: child indices from the root. *)
Definition Path := list nat.

(** The node at a position below the nodes [cs]. *)
Fixpoint nodeAt (cs : list Node) (p : Path) : option Node :=
  match p with
  | [] => None
  | [i] => nth_error cs i
  | i :: p' =>
      match nth_error cs i with
      | Some n => nodeAt (children_of n) p'
      | None => None
      end
  end.

(** Going down from [n] along the child indices [s]: the node reached and
    the elements passed on the way, nearest first, on top of [above]. *)
Fixpoint descend (n : Node) (s : Path) (above : list Head) : option (list Head * Node) :=
  match s with
  | [] => Some (above, n)
  | i :: s' =>
      match n with
      | Elem name attribs cs =>
          match nth_error cs i with
          | Some c => descend c s' ((name, attribs) :: above)
          | None => None
          end
      | _ => None
      end
  end.

(** The node at a position of the document, with its ancestors. *)
Definition locate (doc : list Node) (p : Path) : option (list Head * Node) :=
  match p with
  | [] => None
  | i :: s =>
      match nth_error doc i with
      | Some n => descend n s []
      | None => None
      end
  end.

(** Some element of the document matches the selector. *)
Definition occurs (doc : list Node) (sel : Selector) : Prop :=
  exists p anc name attribs cs,
    locate doc p = Some (anc, Elem name attribs cs) /\
    matches (rev sel) anc (name, attribs) = true.

(** A cheerio selection: nodes with their positions, in document order. *)
Definition Cheerio := list (Path * Node).

(** Depth-first search of a subtree for the elements matching [rsel];
    [anc] are the ancestors inside the search scope, nearest first. *)
Fixpoint search (rsel : list Compound) (anc : list Head) (p : Path) (n : Node) : Cheerio :=
  match n with
  | Elem name attribs cs =>
      (if matches rsel anc (name, attribs) then [(p, n)] else []) ++
      (fix kids (i : nat) (cs : list Node) : Cheerio :=
         match cs with
         | [] => []
         | c :: cs' =>
             search rsel ((name, attribs) :: anc) (p ++ [i]) c ++ kids (S i) cs'
         end) 0 cs
  | _ => []
  end.

(** The search of the children [cs] of the node at [p], numbered from [i]
    (the inner loop of [search], by name). *)
Fixpoint searchKids (rsel : list Compound) (anc : list Head) (p : Path) (i : nat)
    (cs : list Node) : Cheerio :=
  match cs with
  | [] => []
  | c :: cs' => search rsel anc (p ++ [i]) c ++ searchKids rsel anc p (S i) cs'
  end.

(** A search from the root: no ancestor is in sight. *)
Definition searchAll (rsel : list Compound) (p : Path) (cs : list Node) : Cheerio :=
  searchKids rsel [] p 0 cs.

(** [$(selector)] on the loaded document. *)
Definition query (doc : Document) (sel : Selector) : Cheerio :=
  searchAll (rev sel) [] doc.

Fixpoint isPrefix (p q : Path) : bool :=
  match p, q with
  | [], _ => true
  | x :: p', y :: q' => Nat.eqb x y && isPrefix p' q'
  | _ :: _, [] => false
  end.

(** Document order on positions: an element comes before what it
    contains, and the subtree of a child before those of its later
    siblings. *)
Fixpoint precedes (p q : Path) : bool :=
  match p, q with
  | _, [] => false
  | [], _ :: _ => true
  | x :: p', y :: q' => Nat.ltb x y || (Nat.eqb x y && precedes p' q')
  end.

Definition isProperPrefix (p q : Path) : bool :=
  isPrefix p q && Nat.ltb (length p) (length q).

(** The contexts that lie inside no other context ([removeSubsets]). *)
Definition outermost (ctx : Cheerio) : Cheerio :=
  filter (fun c => negb (existsb (fun d => isProperPrefix (fst d) (fst c)) ctx)) ctx.

(** The ancestors a search below the context [c] may use: the context
    itself and nothing above it.  css-select puts [:scope] in front of the
    selector and, the contexts being handed over as an array, lets the
    scope element itself stand for the outermost compound; when the
    context is the root element the scope is left out, and the root
    element is in sight as the ancestor it is. *)
Definition scopeOf (c : Path * Node) : list Head :=
  match snd c with
  | Elem name attribs _ => [(name, attribs)]
  | _ => []
  end.

(** [ctx.find(selector)]: the elements below the contexts that match, an
    element below several contexts being found once. *)
Definition find (ctx : Cheerio) (sel : Selector) : Cheerio :=
  flat_map (fun c => searchKids (rev sel) (scopeOf c) (fst c) 0 (children_of (snd c)))
    (outermost ctx).

(** The element [e] lies strictly below the context [c] and matches the
    selector, the chain of ancestors being taken from [c] down, [c]
    included: what [find] is to return, said without a search. *)
Definition below (c : Path * Node) (sel : Selector) (e : Path * Node) : Prop :=
  exists s anc name attribs cs,
    s <> [] /\ fst e = fst c ++ s /\ snd e = Elem name attribs cs /\
    descend (snd c) s [] = Some (anc, Elem name attribs cs) /\
    matches (rev sel) anc (name, attribs) = true.

(** [sel.first()] *)
Definition first (sel : Cheerio) : Cheerio :=
  match sel with
  | [] => []
  | x :: _ => [x]
  end.

(** [sel.text()]: the text of every selected element, concatenated. *)
Definition text (sel : Cheerio) : Js.str :=
  flat_map (fun x => textContent (snd x)) sel.

(** [sel.attr(name)]: read on the first selected element. *)
Definition attr (sel : Cheerio) (name : Js.str) : option Js.str :=
  match sel with
  | [] => None
  | x :: _ => getAttributeValue (snd x) name
  end.

(** [$(el)] inside an [each] or [map] callback. *)
Definition wrap (el : Path * Node) : Cheerio := [el].

(** [sel.hasClass(c)] *)
Definition hasClass (sel : Cheerio) (c : Js.str) : bool :=
  existsb (fun x => hasWord c (getAttributeValue (snd x) (Js.lit "class"))) sel.

(** [sel.each(callback)] where the callback pushes onto an array [acc]
    declared outside; none of the callbacks of the source returns
    [false], so every element is visited. *)
Definition each {A : Type} (sel : Cheerio) (callback : A -> Path * Node -> A) (acc : A) : A :=
  fold_left callback sel acc.

End Dom.

(* ================================================================== *)
(** ** Dates *)

Module JsDate.

(** What [parseLegiData] reads from [new Date()]: the local calendar day. *)
Record Local : Type := {
  getDate : N;       (* day of the month, 1..31 *)
  getMonth : N;      (* 0..11 *)
  getFullYear : N
}.

(** The calendar inside a cycle of 400 years that starts on a 1st of
    March.  A cycle is four centuries of 36524 days and one day more, a
    century 25 blocks of four years less one day, a block four years of
    365 days and one day more: from the day of the cycle to the year of
    the cycle and the day of that year. *)
Definition yearDay (doe : Z) : Z * Z :=
  let c := Z.min (doe / 36524) 3 in
  let r1 := (doe - c * 36524)%Z in
  let q := (r1 / 1461)%Z in
  let r2 := (r1 mod 1461)%Z in
  let a := Z.min (r2 / 365) 3 in
  ((c * 100 + q * 4 + a)%Z, (r2 - a * 365)%Z).

(** From the day of a year that starts in March to the month (1..12) and
    the day of the month. *)
Definition monthDay (doy : Z) : Z * Z :=
  let mp := ((5 * doy + 2) / 153)%Z in
  ((if Z.ltb mp 10 then mp + 3 else mp - 9)%Z, (doy - (153 * mp + 2) / 5 + 1)%Z).

(** January and February belong to the next calendar year. *)
Definition civilInEra (doe : Z) : Z * Z * Z :=
  let '(yoe, doy) := yearDay doe in
  let '(m, d) := monthDay doy in
  ((yoe + (if Z.leb m 2 then 1 else 0))%Z, m, d).

(** Days since 1970-01-01 to the proleptic Gregorian (year, month, day). *)
Definition civil (days : Z) : Z * Z * Z :=
  let z := (days + 719468)%Z in
  let '(y, m, d) := civilInEra (z mod 146097) in
  ((y + z / 146097 * 400)%Z, m, d).

(** Calendar order on (year, month, day). *)
Definition earlier (a b : Z * Z * Z) : bool :=
  let '(y1, m1, d1) := a in
  let '(y2, m2, d2) := b in
  Z.ltb y1 y2 || (Z.eqb y1 y2 && (Z.ltb m1 m2 || (Z.eqb m1 m2 && Z.ltb d1 d2))).

(** [checkUpTo P n]: whether [P] holds of 0, 1, ..., [n - 1]. *)
Definition checkUpTo (P : Z -> bool) (n : N) : bool :=
  snd (N.iter n (fun st => ((fst st + 1)%Z, snd st && P (fst st))) (0%Z, true)).

(** The time values of the years 0000 to 9999, which [toISOString] writes
    with four digits. *)
Definition fourDigitYear (t : Z) : Prop :=
  (-62167219200000 <= t < 253402300800000)%Z.

Definition pad (n : nat) (z : Z) : Js.str :=
  Js.padStart n 48%N (Js.ofN (Z.to_N z)).

(** [new Date(t).toISOString()] for a time value [t] in milliseconds since
    the epoch: [YYYY-MM-DDTHH:mm:ss.sssZ], the year written with a sign and
    six digits outside 0..9999. *)
Definition toISOString (t : Z) : Js.str :=
  let days := (t / 86400000)%Z in
  let rest := (t mod 86400000)%Z in
  let '(y, m, d) := civil days in
  (if Z.ltb y 0 then Js.lit "-" ++ pad 6 (Z.abs y)
   else if Z.ltb 9999 y then Js.lit "+" ++ pad 6 y
   else pad 4 y)
  ++ Js.lit "-" ++ pad 2 m ++ Js.lit "-" ++ pad 2 d
  ++ Js.lit "T" ++ pad 2 (rest / 3600000)
  ++ Js.lit ":" ++ pad 2 ((rest / 60000) mod 60)
  ++ Js.lit ":" ++ pad 2 ((rest / 1000) mod 60)
  ++ Js.lit "." ++ pad 3 (rest mod 1000) ++ Js.lit "Z".

End JsDate.

(* ================================================================== *)
(** ** The data of [src/index.ts] *)

Definition DEFAULT_LEGI_URL : Js.str := Js.lit "https://www.legifrance.gouv.fr/".
Definition EMBED_COLOR : N := 15569806%N.   (* 0xED938E *)
Definition MAX_DESC_LENGTH : nat := 4000.

Record Article : Type := {
  articleNumbers : list Js.str;
  articleUrls : list Js.str;
  sectionName : Js.str;
  sectionUrl : Js.str
}.

Record ModificationItem : Type := {
  title : Js.str;
  url : Js.str;
  action : Js.str;
  articles : list Article
}.

Record ParsedData : Type := {
  date : Js.str;
  dateUrl : Js.str;
  modifications : list ModificationItem
}.

Record VersionItem : Type := {
  isCurrentVersion : bool;
  dateLink : Js.str;
  savedHtml : Js.str
}.

Record LegiLog : Type := {
  log_date : Js.str;
  versionItems : list VersionItem
}.

(** What discord.js keeps of an [EmbedBuilder] after the setters of the
    source; [description] stays unset until [setDescription]. *)
Record EmbedBuilder : Type := {
  embedTitle : Js.str;
  embedUrl : Js.str;
  embedColor : N;
  embedTimestamp : Z;
  description : option Js.str
}.

(** The builder with [d] for description. *)
Definition withDescription (e : EmbedBuilder) (d : Js.str) : EmbedBuilder :=
  {| embedTitle := embedTitle e; embedUrl := embedUrl e; embedColor := embedColor e;
     embedTimestamp := embedTimestamp e; description := Some d |}.

(** The setters of [EmbedBuilder] check what they receive and throw on
    what they refuse: a title outside 1..256 code units, a description
    outside 1..4096, a colour above [0xFFFFFF]. *)
Definition titleOk (t : Js.str) : bool :=
  Nat.leb 1 (length t) && Nat.leb (length t) 256.

Definition descriptionOk (d : Js.str) : bool :=
  Nat.leb 1 (length d) && Nat.leb (length d) 4096.

Definition colorOk (c : N) : bool := N.leb c 16777215.

(** [embed.setDescription(d)]; [None] when it throws. *)
Definition setDescription (e : EmbedBuilder) (d : Js.str) : option EmbedBuilder :=
  if descriptionOk d then Some (withDescription e d) else None.

(** The body a chunk carries. *)
Definition body (e : EmbedBuilder) : Js.str :=
  match description e with
  | Some d => d
  | None => []
  end.

(* ================================================================== *)
(** ** [parseLegiData] *)

Module Sel.
Import Dom.

Definition versionToday (todayFormatted : Js.str) : Selector :=
  [[Class (Js.lit "version-item")];
   [Tag (Js.lit "a"); AttrEquals (Js.lit "data-date") todayFormatted]].
Definition currentVersion : Selector :=
  [[Class (Js.lit "version-item"); Class (Js.lit "current-version")]].
Definition timelineTitleLink : Selector :=
  [[Class (Js.lit "detail-timeline-title")]; [Tag (Js.lit "a")]].
Definition contentDetailTimeline : Selector :=
  [[Class (Js.lit "content-detail-timeline")]].
Definition titleLink : Selector :=
  [[Tag (Js.lit "h4"); Class (Js.lit "txt-title")]; [Tag (Js.lit "a")]].
Definition tagStateSmall : Selector :=
  [[Class (Js.lit "tag-state-small")]].
Definition listItem : Selector :=
  [[Class (Js.lit "list-item")]].
Definition articleLinks : Selector :=
  [[Class (Js.lit "list-arcticle-chrono")]; [Tag (Js.lit "li")]; [Tag (Js.lit "a")]].
Definition sectionLink : Selector :=
  [[Tag (Js.lit "a"); AttrAny (Js.lit "href") (Js.lit "section_lc")]].
Definition yearPanel : Selector :=
  [[Class (Js.lit "accordion-timeline-item"); AttrEquals (Js.lit "data-year") (Js.lit "2026")];
   [Id (Js.lit "expand_1")]].
Definition versionItem : Selector :=
  [[Class (Js.lit "version-item")]].

End Sel.

Definition href : Js.str := Js.lit "href".

(** [DD/MM/YYYY] of the reference date. *)
Definition todayFormatted (today : JsDate.Local) : Js.str :=
  Js.padStart 2 48%N (Js.ofN (JsDate.getDate today)) ++ Js.lit "/" ++
  Js.padStart 2 48%N (Js.ofN (JsDate.getMonth today + 1)) ++ Js.lit "/" ++
  Js.ofN (JsDate.getFullYear today).

(** The callback over the article links of one item: one push on each of
    the two arrays. *)
Definition eachArticleLink (acc : list Js.str * list Js.str) (artEl : Dom.Path * Dom.Node)
  : list Js.str * list Js.str :=
  (fst acc ++ [Js.trim (Dom.text (Dom.wrap artEl))],
   snd acc ++ [Js.plus DEFAULT_LEGI_URL (Dom.attr (Dom.wrap artEl) href)]).

(** The callback over the [.list-item] elements of one modification. *)
Definition eachListItem (articles : list Article) (itemEl : Dom.Path * Dom.Node) : list Article :=
  let item := Dom.wrap itemEl in
  let '(articleNumbers, articleUrls) :=
    Dom.each (Dom.find item Sel.articleLinks) eachArticleLink ([], []) in
  let sectionLink := Dom.find item Sel.sectionLink in
  let sectionName := Js.trim (Dom.text sectionLink) in
  let sectionUrl := Js.plus DEFAULT_LEGI_URL (Dom.attr sectionLink href) in
  articles ++ [{| articleNumbers := articleNumbers; articleUrls := articleUrls;
                  sectionName := sectionName; sectionUrl := sectionUrl |}].

(** The callback over the [.content-detail-timeline] blocks. *)
Definition eachModification (modifications : list ModificationItem) (modifEl : Dom.Path * Dom.Node)
  : list ModificationItem :=
  let modif := Dom.wrap modifEl in
  let titleLink := Dom.find modif Sel.titleLink in
  if Nat.eqb (length titleLink) 0 then modifications
  else
    let title := Js.trim (Dom.text titleLink) in
    let url := Js.plus DEFAULT_LEGI_URL (Dom.attr titleLink href) in
    let action := Js.trim (Dom.text (Dom.find modif Sel.tagStateSmall)) in
    let articles := Dom.each (Dom.find modif Sel.listItem) eachListItem [] in
    modifications ++ [{| title := title; url := url; action := action; articles := articles |}].

(** [parseLegiData(rawHTML)], from the document [cheerio.load(rawHTML)] and
    the calendar day read from [today].  [src/index.ts] takes
    [new Date()] for [today], the earlier variant of the file
    [new Date('2026-01-07')]; both read it through [getDate], [getMonth] and
    [getFullYear] only. *)
Definition parseLegiData (today : JsDate.Local) (doc : Dom.Document) : option ParsedData :=
  if Nat.eqb (length (Dom.query doc (Sel.versionToday (todayFormatted today)))) 0 then None
  else
    let container := Dom.first (Dom.query doc Sel.currentVersion) in
    if Nat.eqb (length container) 0 then None
    else
      let dateLink := Dom.find container Sel.timelineTitleLink in
      let date := Js.trim (Dom.text dateLink) in
      let dateUrl := Js.plus (Js.lit "https://www.legifrance.gouv.fr") (Dom.attr dateLink href) in
      let modifications :=
        Dom.each (Dom.find container Sel.contentDetailTimeline) eachModification [] in
      Some {| date := date; dateUrl := dateUrl; modifications := modifications |}.

(** *** What each element contributes

    The same extraction written element by element: the record one
    [.list-item] yields and the record one block yields.  The loops above
    are proved to build exactly the lists of these records. *)

Module Extracted.

Definition articleNumberOf (artEl : Dom.Path * Dom.Node) : Js.str :=
  Js.trim (Dom.text (Dom.wrap artEl)).

Definition articleUrlOf (artEl : Dom.Path * Dom.Node) : Js.str :=
  Js.plus DEFAULT_LEGI_URL (Dom.attr (Dom.wrap artEl) href).

Definition articleLinksOf (itemEl : Dom.Path * Dom.Node) : Dom.Cheerio :=
  Dom.find (Dom.wrap itemEl) Sel.articleLinks.

Definition sectionLinkOf (itemEl : Dom.Path * Dom.Node) : Dom.Cheerio :=
  Dom.find (Dom.wrap itemEl) Sel.sectionLink.

Definition articleGroupOf (itemEl : Dom.Path * Dom.Node) : Article :=
  {| articleNumbers := map articleNumberOf (articleLinksOf itemEl);
     articleUrls := map articleUrlOf (articleLinksOf itemEl);
     sectionName := Js.trim (Dom.text (sectionLinkOf itemEl));
     sectionUrl := Js.plus DEFAULT_LEGI_URL (Dom.attr (sectionLinkOf itemEl) href) |}.

Definition hasTitleLink (modifEl : Dom.Path * Dom.Node) : bool :=
  negb (Nat.eqb (length (Dom.find (Dom.wrap modifEl) Sel.titleLink)) 0).

Definition modificationOf (modifEl : Dom.Path * Dom.Node) : ModificationItem :=
  let modif := Dom.wrap modifEl in
  {| title := Js.trim (Dom.text (Dom.find modif Sel.titleLink));
     url := Js.plus DEFAULT_LEGI_URL (Dom.attr (Dom.find modif Sel.titleLink) href);
     action := Js.trim (Dom.text (Dom.find modif Sel.tagStateSmall));
     articles := map articleGroupOf (Dom.find modif Sel.listItem) |}.

(** The modification blocks of the current-version container, in the
    order [find] returns them. *)
Definition blocksOf (doc : Dom.Document) : Dom.Cheerio :=
  Dom.find (Dom.first (Dom.query doc Sel.currentVersion)) Sel.contentDetailTimeline.

(** The list items of every titled block of the container. *)
Definition itemsOf (doc : Dom.Document) : Dom.Cheerio :=
  flat_map (fun b => Dom.find (Dom.wrap b) Sel.listItem) (filter hasTitleLink (blocksOf doc)).

End Extracted.

(* ================================================================== *)
(** ** [formatEmbeds] *)

Definition nl : Js.str := [10%N].

Definition actionEmoji (action : Js.str) : Js.str :=
  if Js.includes action (Js.lit "modifi" ++ [233%N]) then [55357; 56541]%N   (* U+1F4DD *)
  else if Js.includes action (Js.lit "cr" ++ [233; 233]%N) then [10024%N]    (* U+2728 *)
  else if Js.includes action (Js.lit "abrog" ++ [233%N]) then [10060%N]      (* U+274C *)
  else [55357; 56516]%N.                                                     (* U+1F4C4 *)

(** [articleNumbers.map((num, idx) => `[${num}](${articleUrls[idx]})`)];
    an index past the end of [articleUrls] reads [undefined]. *)
Fixpoint articleLinksFrom (idx : nat) (nums : list Js.str) (urls : list Js.str) : list Js.str :=
  match nums with
  | [] => []
  | num :: nums' =>
      (Js.lit "[" ++ num ++ Js.lit "](" ++ Js.plus [] (nth_error urls idx) ++ Js.lit ")")
      :: articleLinksFrom (S idx) nums' urls
  end.

(** One pass of the loop over [modif.articles]. *)
Definition appendArticleGroup (modifContent : Js.str) (articleGroup : Article) : Js.str :=
  let articlesLinks :=
    Js.join (Js.lit ", ")
      (articleLinksFrom 0 (articleNumbers articleGroup) (articleUrls articleGroup)) in
  let modifContent := modifContent ++ [8226%N] ++ Js.lit " Article " ++ articlesLinks in
  let modifContent :=
    if Js.truthy (sectionName articleGroup)
    then modifContent ++ Js.lit " - [" ++ sectionName articleGroup ++ Js.lit "]("
                      ++ sectionUrl articleGroup ++ Js.lit ")"
    else modifContent in
  modifContent ++ nl.

(** The rendered block of one modification ([modifContent] when the loop
    over its article groups ends). *)
Definition modifContent (modif : ModificationItem) : Js.str :=
  let content :=
    nl ++ Js.lit "### " ++ actionEmoji (action modif) ++ Js.lit " [" ++ title modif
       ++ Js.lit "](" ++ url modif ++ Js.lit ")" in
  let content := content ++ nl ++ Js.lit "*" ++ action modif ++ Js.lit "*" ++ nl in
  fold_left appendArticleGroup (articles modif) content.

Definition calendar : Js.str := [55357; 56517]%N.   (* U+1F4C5 *)

(** The variables of the loop of [formatEmbeds]. *)
Record Pagination : Type := {
  embeds : list EmbedBuilder;
  currentEmbed : EmbedBuilder;
  currentDescription : Js.str
}.

Section Format.

(** The bound of the overflow check; the source fixes it to
    [MAX_DESC_LENGTH]. *)
Variable maxLength : nat.

(** [clock k] is what the [k]-th [setTimestamp()] of the call reads; the
    builders are created one per chunk, in order. *)
Variable clock : nat -> Z.

(** [validUrl u]: [setURL(u)] takes [u], that is, [new URL(u)] reads it
    and its protocol is http, https or attachment. *)
Variable validUrl : Js.str -> bool.

Variable data : ParsedData.

(** What the setters of the first builder are given, and of a builder
    created after a seal; [created] builders exist before it. *)
Definition firstHeader : EmbedBuilder :=
  {| embedTitle := calendar ++ Js.lit " " ++ date data;
     embedUrl := dateUrl data;
     embedColor := EMBED_COLOR;
     embedTimestamp := clock 0;
     description := None |}.

Definition nextHeader (created : nat) : EmbedBuilder :=
  {| embedTitle := calendar ++ Js.lit " " ++ date data ++ Js.lit " (suite)";
     embedUrl := dateUrl data;
     embedColor := EMBED_COLOR;
     embedTimestamp := clock created;
     description := None |}.

(** Whether [setTitle], [setURL] and [setColor] take what they are given. *)
Definition headerOk (header : EmbedBuilder) : bool :=
  titleOk (embedTitle header) && validUrl (embedUrl header) && colorOk (embedColor header).

(** [new EmbedBuilder().setTitle(t).setURL(u).setColor(c).setTimestamp()]:
    the builder, or [None] when one of the setters throws. *)
Definition build (header : EmbedBuilder) : option EmbedBuilder :=
  if headerOk header then Some header else None.

Definition firstEmbed : option EmbedBuilder := build firstHeader.

Definition nextEmbed (created : nat) : option EmbedBuilder := build (nextHeader created).

(** The body of [for (const modif of data.modifications)]; [None] when
    [setDescription] or the creation of the next builder throws. *)
Definition paginate (st : Pagination) (modif : ModificationItem) : option Pagination :=
  let content := modifContent modif in
  if Nat.ltb maxLength (length (currentDescription st ++ content))
  then
    match setDescription (currentEmbed st) (currentDescription st) with
    | Some full =>
        let sealed := embeds st ++ [full] in
        match nextEmbed (length sealed) with
        | Some fresh =>
            Some {| embeds := sealed;
                    currentEmbed := fresh;
                    currentDescription := content |}
        | None => None
        end
    | None => None
    end
  else
    Some {| embeds := embeds st;
            currentEmbed := currentEmbed st;
            currentDescription := currentDescription st ++ content |}.

(** The loop goes on as long as nothing was thrown. *)
Definition continue (st : option Pagination) (modif : ModificationItem) : option Pagination :=
  match st with
  | Some st => paginate st modif
  | None => None
  end.

Definition paginateAll : option Pagination :=
  match firstEmbed with
  | Some e =>
      fold_left continue (modifications data)
        (Some {| embeds := []; currentEmbed := e; currentDescription := [] |})
  | None => None
  end.

(** [formatEmbeds(data)] with [maxLength] for [MAX_DESC_LENGTH]: the
    chunks returned, or [None] when the call throws. *)
Definition formatEmbedsWithin : option (list EmbedBuilder) :=
  match paginateAll with
  | Some st =>
      if Nat.ltb 0 (length (currentDescription st))
      then
        match setDescription (currentEmbed st) (currentDescription st) with
        | Some full => Some (embeds st ++ [full])
        | None => None
        end
      else Some (embeds st)
  | None => None
  end.

(** *** The layout

    The same loop with the checks of the builder left out: the chunks as
    they are laid out.  Whatever [formatEmbeds] returns is this layout
    (lemma [formatEmbeds_layout]). *)
Definition layoutStep (st : Pagination) (modif : ModificationItem) : Pagination :=
  let content := modifContent modif in
  if Nat.ltb maxLength (length (currentDescription st ++ content))
  then
    let sealed := embeds st ++ [withDescription (currentEmbed st) (currentDescription st)] in
    {| embeds := sealed;
       currentEmbed := nextHeader (length sealed);
       currentDescription := content |}
  else
    {| embeds := embeds st;
       currentEmbed := currentEmbed st;
       currentDescription := currentDescription st ++ content |}.

Definition layoutAll : Pagination :=
  fold_left layoutStep (modifications data)
    {| embeds := []; currentEmbed := firstHeader; currentDescription := [] |}.

Definition layout : list EmbedBuilder :=
  let st := layoutAll in
  if Nat.ltb 0 (length (currentDescription st))
  then embeds st ++ [withDescription (currentEmbed st) (currentDescription st)]
  else embeds st.

End Format.

(** [formatEmbeds(data)] *)
Definition formatEmbeds (clock : nat -> Z) (validUrl : Js.str -> bool) (data : ParsedData)
  : option (list EmbedBuilder) :=
  formatEmbedsWithin MAX_DESC_LENGTH clock validUrl data.

(* ================================================================== *)
(** ** [processLogUpdates] *)

(** What the bot keeps and what it has done to the outside: the in-memory
    array [observedLogs], the messages handed to [channel.send], and the
    arrays handed to [saveLogs] for writing, oldest first. *)
Record Bot : Type := {
  observedLogs : list LegiLog;
  sent : list Js.str;
  saved : list (list LegiLog)
}.

Definition alert : Js.str :=
  Js.lit "Nouvelle modification d" ++ [233%N] ++ Js.lit "tect" ++ [233%N]
    ++ Js.lit "e <@410774625820082176>".

(** [xs[xs.length - 1]] *)
Definition lastLog (logs : list LegiLog) : option LegiLog :=
  nth_error logs (length logs - 1).

(** The version-item elements of the 2026 panel of the timeline:
    [$(".accordion-timeline-item[data-year='2026'] #expand_1").find(".version-item")]. *)
Definition probedItems (doc : Dom.Document) : Dom.Cheerio :=
  let container := Dom.query doc Sel.yearPanel in
  Dom.find container Sel.versionItem.

Section Tracker.

(** The serializer behind cheerio's [.html()], given the children of an
    element. *)
Variable serialize : list Dom.Node -> Js.str.

(** [sel.html()]: [null] on an empty selection. *)
Definition html (sel : Dom.Cheerio) : option Js.str :=
  match sel with
  | [] => None
  | x :: _ => Some (serialize (Dom.children_of (snd x)))
  end.

(** The callback of [versionItems.map]. *)
Definition formatVersionItem (el : Dom.Path * Dom.Node) : VersionItem :=
  let versionItem := Dom.wrap el in
  let dateLinkHtml := Dom.find versionItem Sel.timelineTitleLink in
  {| isCurrentVersion := Dom.hasClass versionItem (Js.lit "current-version");
     dateLink :=
       match html dateLinkHtml with
       | Some (_ :: _) =>
           Js.plus (Js.lit "https://www.legifrance.gouv.fr") (Dom.attr dateLinkHtml href)
       | _ => []
       end;
     savedHtml :=
       match html versionItem with
       | Some (c :: s) => c :: s
       | _ => []
       end |}.

(** The comparison that guards [channel.send]. *)
Definition newVersion (logs : list LegiLog) (items : list VersionItem) : bool :=
  Nat.ltb 0 (length logs) &&
  match lastLog logs with
  | Some l => Nat.ltb (length (versionItems l)) (length items)
  | None => false
  end.

(** [processLogUpdates(channel)] once [scrapeChronoLegi] has returned the
    page; [now] is the time value [new Date()] reads before the push. *)
Definition processLogUpdates (doc : Dom.Document) (now : Z) (bot : Bot) : Bot :=
  let versionItems := probedItems doc in
  if Nat.eqb (length versionItems) 0 then bot
  else
    let formatedVersionItems := map formatVersionItem versionItems in
    let sent' :=
      if newVersion (observedLogs bot) formatedVersionItems
      then sent bot ++ [alert]
      else sent bot in
    let logs := observedLogs bot ++
                [{| log_date := JsDate.toISOString now;
                    versionItems := formatedVersionItems |}] in
    {| observedLogs := logs; sent := sent'; saved := saved bot ++ [logs] |}.

(** Whether the probe of [doc] hands an alert to the channel. *)
Definition notify (doc : Dom.Document) (now : Z) (bot : Bot) : bool :=
  Nat.ltb (length (sent bot)) (length (sent (processLogUpdates doc now bot))).

(** A run of hourly probes, each with the page it scraped and the time it
    read. *)
Definition probes (runs : list (Dom.Document * Z)) (bot : Bot) : Bot :=
  fold_left (fun b r => processLogUpdates (fst r) (snd r) b) runs bot.

End Tracker.

(** The bot before [loadLogs] has found anything. *)
Definition freshBot : Bot := {| observedLogs := []; sent := []; saved := [] |}.

(* ================================================================== *)
(** ** A sample page *)

Module Sample.
Import Dom.
#[local] Open Scope string_scope.
#[local] Open Scope list_scope.

Definition el (name : string) (attribs : list (string * string)) (children : list Node) : Node :=
  Elem (Js.lit name) (map (fun kv => (Js.lit (fst kv), Js.lit (snd kv))) attribs) children.

Definition txt (s : string) : Node := Text (Js.lit s).

Definition link (target : string) (label : string) : Node :=
  el "a" [("href", target)] [txt label].

Definition articleList (links : list Node) : Node :=
  el "ul" [("class", "list-arcticle-chrono")] (map (fun a => el "li" [] [a]) links).

(** A decree that amended articles 12 and 13 of one section. *)
Definition decree : Node :=
  el "div" [("class", "content-detail-timeline")]
    [ el "h4" [("class", "txt-title")] [link "/jorf/id/1" " Decree X "];
      el "span" [("class", "tag-state-small")] [Text (Js.lit "A modifi" ++ [233%N])];
      el "div" [("class", "list-item")]
        [ articleList [link "/codes/article_lc/12" "12"; link "/codes/article_lc/13" "13"];
          link "/codes/section_lc/S1" "Section 1" ] ].

(** A block with no title link. *)
Definition untitled : Node :=
  el "div" [("class", "content-detail-timeline")]
    [ el "span" [("class", "tag-state-small")] [txt "A abrog"] ].

(** An order that created article 7, listed without its section. *)
Definition order : Node :=
  el "div" [("class", "content-detail-timeline")]
    [ el "h4" [("class", "txt-title")] [link "/jorf/id/2" "Order Y"];
      el "span" [("class", "tag-state-small")] [Text (Js.lit "A cr" ++ [233; 233]%N)];
      el "div" [("class", "list-item")]
        [ articleList [link "/codes/article_lc/7" "7"] ] ].

Definition versionOf (classes : string) (day : string) (blocks : list Node) : Node :=
  el "div" [("class", classes)]
    (el "div" [("class", "detail-timeline-title")]
       [el "a" [("data-date", day); ("href", String.append "/codes/id/" day)] [txt day]]
     :: blocks).

Definition current (blocks : list Node) : Node :=
  versionOf "version-item current-version" "07/01/2026" blocks.

Definition older : Node := versionOf "version-item" "01/01/2026" [].

Definition page (items : list Node) : Document :=
  [ el "html" []
      [ el "head" [] [];
        el "body" []
          [ el "div" [("class", "accordion-timeline-item"); ("data-year", "2026")]
              [ el "div" [("id", "expand_1")] items ] ] ] ].

(** A block whose title alone is as long as a whole description may be. *)
Definition longTitle : Js.str := repeat 97%N 4000.

Definition longBlock : Node :=
  el "div" [("class", "content-detail-timeline")]
    [ el "h4" [("class", "txt-title")]
        [Elem (Js.lit "a") [(Js.lit "href", Js.lit "/jorf/id/3")] [Text longTitle]] ].

Definition longPage : Document := page [current [longBlock]].

(** What [parseLegiData] returns on [longPage]. *)
Definition longSnapshot : ParsedData :=
  {| date := Js.lit "07/01/2026";
     dateUrl := Js.lit "https://www.legifrance.gouv.fr/codes/id/07/01/2026";
     modifications :=
       [{| title := longTitle;
           url := Js.lit "https://www.legifrance.gouv.fr//jorf/id/3";
           action := [];
           articles := [] |}] |}.

(** Two modifications whose blocks are 40 code units long each. *)
Definition fortyUnits (name : string) : ModificationItem :=
  {| title := Js.lit name; url := []; action := []; articles := [] |}.

Definition twoBlocks : ParsedData :=
  {| date := Js.lit "07/01/2026";
     dateUrl := Js.lit "https://www.legifrance.gouv.fr/codes/id/07/01/2026";
     modifications := [fortyUnits "Decree number 2026-00001"; fortyUnits "Order of 5 January 2026 "] |}.

(** Successive readings of the clock, one millisecond apart. *)
Definition clock (k : nat) : Z := (1793599200000 + Z.of_nat k)%Z.

Definition today : JsDate.Local :=
  {| JsDate.getDate := 7%N; JsDate.getMonth := 0%N; JsDate.getFullYear := 2026%N |}.

(** A serializer good enough to tell an empty element from one with
    content. *)
Fixpoint outer (n : Node) : Js.str :=
  match n with
  | Text d => d
  | Comment d => Js.lit "<!--" ++ d ++ Js.lit "-->"
  | Elem name _ cs =>
      Js.lit "<" ++ name ++ Js.lit ">" ++ flat_map outer cs ++ Js.lit "</" ++ name ++ Js.lit ">"
  end.

Definition serialize (cs : list Node) : Js.str := flat_map outer cs.

(** The timeline on the evening of the 6th: one version, the current one. *)
Definition before : Document :=
  page [versionOf "version-item current-version" "01/01/2026" []].

(** The timeline once the version of the 7th is out. *)
Definition after : Document := page [current [decree; untitled; order]; older].

(** A page with the panel of another year only. *)
Definition otherYear : Document :=
  [ el "div" [("class", "accordion-timeline-item"); ("data-year", "2025")]
      [ el "div" [("id", "expand_1")] [older] ] ].

(** What [parseLegiData] returns on [after]. *)
Definition snapshot : ParsedData :=
  Eval vm_compute in
    match parseLegiData today after with
    | Some d => d
    | None => {| date := []; dateUrl := []; modifications := [] |}
    end.

(** The list item of [order], as the parser meets it in [after]. *)
Definition orderItem : Path * Node :=
  Eval vm_compute in nth 1 (Extracted.itemsOf after) ([], Text []).

(** The decree of [snapshot] and its group of articles. *)
Definition decreeItem : ModificationItem :=
  Eval vm_compute in
    nth 0 (modifications snapshot) {| title := []; url := []; action := []; articles := [] |}.

Definition decreeGroup : Article :=
  Eval vm_compute in
    nth 0 (articles decreeItem)
      {| articleNumbers := []; articleUrls := []; sectionName := []; sectionUrl := [] |}.

(** The entry logged by a probe of [before] at 21:00 UTC on the 6th. *)
Definition entry : LegiLog :=
  {| log_date := JsDate.toISOString 1767733200000;
     versionItems := map (formatVersionItem serialize) (probedItems before) |}.

Definition seen : Bot :=
  {| observedLogs := [entry]; sent := []; saved := [[entry]] |}.

(** A stand-in for the url check of the builder: an https address
    without a space. *)
Definition validUrl (u : Js.str) : bool :=
  Js.startsWith u (Js.lit "https://") && negb (existsb (N.eqb 32) u).

(** The current version with the order and then the long block. *)
Definition mixedPage : Document := page [current [order; longBlock]].

(** What [parseLegiData] returns on [mixedPage]. *)
Definition mixedSnapshot : ParsedData :=
  {| date := Js.lit "07/01/2026";
     dateUrl := Js.lit "https://www.legifrance.gouv.fr/codes/id/07/01/2026";
     modifications :=
       [{| title := Js.lit "Order Y";
           url := Js.lit "https://www.legifrance.gouv.fr//jorf/id/2";
           action := Js.lit "A cr" ++ [233; 233]%N;
           articles :=
             [{| articleNumbers := [Js.lit "7"];
                 articleUrls := [Js.lit "https://www.legifrance.gouv.fr//codes/article_lc/7"];
                 sectionName := [];
                 sectionUrl := Js.lit "https://www.legifrance.gouv.fr/undefined" |}] |};
        {| title := longTitle;
           url := Js.lit "https://www.legifrance.gouv.fr//jorf/id/3";
           action := [];
           articles := [] |}] |}.

(** Two probes that read the clock in the same millisecond. *)
Definition sameInstant : list (Document * Z) :=
  [(before, 1767733200000%Z); (after, 1767733200000%Z)].

End Sample.

(* ================================================================== *)
(** ** The chunks of [formatEmbeds], group by group

    The loop of [formatEmbeds] cuts the modifications in consecutive
    groups, one per chunk.  The same cut written by recursion on the
    modifications still to come, to be compared with the loop. *)

Definition render (g : list ModificationItem) : Js.str := flat_map modifContent g.

Section Groups.

Variable maxLength : nat.
Variable clock : nat -> Z.
Variable data : ParsedData.

(** What the builder of the [k]-th chunk holds before its description:
    the first one, or a continuation. *)
Definition chunkEmbed (k : nat) : EmbedBuilder :=
  match k with
  | 0 => firstHeader clock data
  | S _ => nextHeader clock data k
  end.

(** The chunks of successive groups, numbered from [k]. *)
Fixpoint sealedFrom (k : nat) (groups : list (list ModificationItem)) : list EmbedBuilder :=
  match groups with
  | [] => []
  | g :: rest => withDescription (chunkEmbed k) (render g) :: sealedFrom (S k) rest
  end.

(** With [g] the group in progress: the groups sealed while [mods] are
    read, and the group in progress at the end. *)
Fixpoint groupsFrom (g : list ModificationItem) (mods : list ModificationItem)
  : list (list ModificationItem) * list ModificationItem :=
  match mods with
  | [] => ([], g)
  | m :: rest =>
      if Nat.ltb maxLength (length (render g ++ modifContent m))
      then let '(later, final) := groupsFrom [m] rest in (g :: later, final)
      else groupsFrom (g ++ [m]) rest
  end.

(** The groups of the chunks returned: the group in progress at the end
    counts when it is not empty. *)
Definition chunkGroups (mods : list ModificationItem) : list (list ModificationItem) :=
  let '(later, final) := groupsFrom [] mods in
  match final with
  | [] => later
  | _ :: _ => later ++ [final]
  end.

(** No group could have taken the first block of the next one. *)
Fixpoint tight (groups : list (list ModificationItem)) : bool :=
  match groups with
  | a :: rest =>
      match rest with
      | (m :: _) :: _ => Nat.ltb maxLength (length (render a ++ modifContent m)) && tight rest
      | [] :: _ => false
      | [] => true
      end
  | [] => true
  end.

End Groups.

(* ================================================================== *)
(** ** [scrapeChronoLegi]: the address of the page *)

Definition DEFAULT_CHRONO_LEGI_URL : Js.str :=
  Js.lit "https://www.legifrance.gouv.fr/chronolegi?cidText=LEGITEXT000006071191&libText=-&type=CODE&navigation=true".

(** [s.split(sep)[0]] for a separator of one code unit: what comes before
    its first occurrence, all of [s] when there is none. *)
Fixpoint beforeFirst (sep : N) (s : Js.str) : Js.str :=
  match s with
  | [] => []
  | c :: s' => if N.eqb c sep then [] else c :: beforeFirst sep s'
  end.

(** [new Date().toISOString().split('T')[0]] *)
Definition consultDate (now : Z) : Js.str := beforeFirst 84%N (JsDate.toISOString now).

(** The address [scrapeChronoLegi] opens, [now] being the time value of
    its [new Date()]. *)
Definition scrapeUrl (now : Z) : Js.str :=
  let today := consultDate now in
  DEFAULT_CHRONO_LEGI_URL ++ Js.lit "&startYear=" ++ today ++ Js.lit "&endYear=" ++ today
    ++ Js.lit "&dateConsult=" ++ today.

(* ================================================================== *)
(** ** [processLegiUpdates] *)

Definition PING_OWNER : bool := true.
Definition SEND_IF_NO_CHANGE : bool := true.

(** What [channel.send] is given: a text, or an optional text with
    embeds. *)
Inductive Message : Type :=
| Plain (content : Js.str)
| Rich (content : option Js.str) (embeds : list EmbedBuilder).

Definition noChange : Js.str :=
  Js.lit "Aucune modification l" ++ [233%N] ++ Js.lit "gale d" ++ [233%N] ++ Js.lit "tect"
    ++ [233%N] ++ Js.lit "e aujourd'hui".

(** Truthiness of [process.env.OWNER_ID]: set and not empty. *)
Definition isSet (v : option Js.str) : bool :=
  match v with
  | Some s => Js.truthy s
  | None => false
  end.

Definition mention (OWNER_ID : option Js.str) : Js.str :=
  Js.lit "<@" ++ Js.plus [] OWNER_ID ++ Js.lit ">".

(** The loop [for (let i = 0; i < embeds.length; i++)] from index [i] on,
    [embeds] being the chunks from [embeds[i]].  [accepts i] tells whether
    the promise of the [i]-th [channel.send] of the call resolves; a
    rejection is thrown by [await] and ends the call.  The result is what
    was handed to [channel.send], and whether the call ran to its end. *)
Fixpoint sendEach (OWNER_ID : option Js.str) (accepts : nat -> bool) (i : nat)
    (embeds : list EmbedBuilder) : list Message * bool :=
  match embeds with
  | [] => ([], true)
  | e :: rest =>
      let content :=
        if PING_OWNER && isSet OWNER_ID && Nat.eqb i 0
        then Some (mention OWNER_ID)
        else None in
      let message := Rich content [e] in
      if accepts i
      then let '(later, done) := sendEach OWNER_ID accepts (S i) rest in (message :: later, done)
      else ([message], false)
  end.

(** [processLegiUpdates(channel)] once [scrapeChronoLegi] has returned the
    page.  When [formatEmbeds] throws, the call ends there: nothing has
    been handed to the channel. *)
Definition processLegiUpdates (today : JsDate.Local) (clock : nat -> Z)
    (validUrl : Js.str -> bool) (OWNER_ID : option Js.str) (accepts : nat -> bool)
    (doc : Dom.Document)
  : list Message * bool :=
  match parseLegiData today doc with
  | Some legiData =>
      match formatEmbeds clock validUrl legiData with
      | Some embeds => sendEach OWNER_ID accepts 0 embeds
      | None => ([], false)
      end
  | None =>
      if SEND_IF_NO_CHANGE then ([Plain noChange], accepts 0) else ([], true)
  end.

(* ================================================================== *)
(** ** [loadLogs] and [saveLogs] *)

(** The file [observed_logs.json]: missing, there but not readable, or
    holding a text. *)
Inductive File : Type :=
| Absent
| Unreadable
| Holds (data : Js.str).

(** [fs.writeFile]: replaces the content, or throws and leaves the file as
    it was ([None]). *)
Definition writeFile (writable : bool) (data : Js.str) : option File :=
  if writable then Some (Holds data) else None.

Section Persistence.

(** [JSON.stringify(observedLogs, null, 2)] *)
Variable stringify : list LegiLog -> Js.str.

(** [JSON.parse(data)], read as the array that [observedLogs.push(...logs)]
    spreads; [None] when either throws. *)
Variable parse : Js.str -> option (list LegiLog).

Definition pushLogs (bot : Bot) (logs : list LegiLog) : Bot :=
  {| observedLogs := observedLogs bot ++ logs; sent := sent bot; saved := saved bot |}.

(** [loadLogs()]: whatever throws is caught and leaves the logs alone. *)
Definition loadLogs (writable : bool) (file : File) (bot : Bot) : File * Bot :=
  let created :=
    match file with
    | Absent => writeFile writable (Js.lit "[]")
    | _ => Some file
    end in
  match created with
  | None => (file, bot)
  | Some (Holds data) =>
      match parse data with
      | Some logs => (Holds data, pushLogs bot logs)
      | None => (Holds data, bot)
      end
  | Some other => (other, bot)
  end.

(** [saveLogs()] *)
Definition saveLogs (writable : bool) (bot : Bot) (file : File) : File :=
  match writeFile writable (stringify (observedLogs bot)) with
  | Some written => written
  | None => file
  end.

Variable serialize : list Dom.Node -> Js.str.

(** One hourly probe with the file at hand: [processLogUpdates] notes in
    [saved] that it calls [saveLogs]; the call is carried out here. *)
Definition hourly (st : File * Bot) (run : bool * Dom.Document * Z) : File * Bot :=
  let '(writable, doc, now) := run in
  let bot := processLogUpdates serialize doc now (snd st) in
  (if Nat.ltb (length (saved (snd st))) (length (saved bot))
   then saveLogs writable bot (fst st)
   else fst st,
   bot).

Definition hourlies (runs : list (bool * Dom.Document * Z)) (st : File * Bot) : File * Bot :=
  fold_left hourly runs st.

End Persistence.

(* ================================================================== *)
(** ** Counting and shapes *)

(** The number of version items a probe of [doc] extracts. *)
Definition itemCount (doc : Dom.Document) : nat := length (probedItems doc).

(** The probes of a run that found version items. *)
Definition found (runs : list (Dom.Document * Z)) : list (Dom.Document * Z) :=
  filter (fun r => negb (Nat.eqb (itemCount (fst r)) 0)) runs.

(** The entry that the probe of a page at an instant logs. *)
Definition logged (serialize : list Dom.Node -> Js.str) (r : Dom.Document * Z) : LegiLog :=
  {| log_date := JsDate.toISOString (snd r);
     versionItems := map (formatVersionItem serialize) (probedItems (fst r)) |}.

(** The count of the last entry of the log, if any. *)
Definition lastCount (logs : list LegiLog) : option nat :=
  option_map (fun l => length (versionItems l)) (lastLog logs).

(** How many times a sequence of counts goes strictly up, [prev] being the
    count before the first. *)
Fixpoint ascents (prev : option nat) (counts : list nat) : nat :=
  match counts with
  | [] => 0
  | c :: rest =>
      match prev with
      | Some p => if Nat.ltb p c then 1 else 0
      | None => 0
      end + ascents (Some c) rest
  end.

(** No whitespace at either end. *)
Definition isTrimmed (s : Js.str) : bool :=
  match s with
  | [] => true
  | c :: _ => negb (Js.isWhiteSpace c) && negb (Js.isWhiteSpace (last s c))
  end.

Definition isDigit (c : N) : bool := N.leb 48 c && N.leb c 57.

(** A calendar day as [getDate], [getMonth] and [getFullYear] give it, in
    a year of four digits. *)
Definition fourDigitDay (d : JsDate.Local) : bool :=
  N.leb 1 (JsDate.getDate d) && N.leb (JsDate.getDate d) 31
  && N.leb (JsDate.getMonth d) 11
  && N.leb 1000 (JsDate.getFullYear d) && N.leb (JsDate.getFullYear d) 9999.

(** The number that a string of decimal digits writes. *)
Definition digitsValue (s : Js.str) : N :=
  fold_left (fun acc c => (10 * acc + (c - 48))%N) s 0%N.

(** No white space at either end of any text field of a snapshot. *)
Definition trimmedGroup (g : Article) : bool :=
  isTrimmed (sectionName g) && forallb isTrimmed (articleNumbers g).

Definition trimmedItem (m : ModificationItem) : bool :=
  isTrimmed (title m) && isTrimmed (action m) && forallb trimmedGroup (articles m).

Definition trimmedData (data : ParsedData) : bool :=
  isTrimmed (date data) && forallb trimmedItem (modifications data).

(** Every address of a snapshot under the address of the site. *)
Definition underSite (u : Js.str) : bool := Js.startsWith u DEFAULT_LEGI_URL.

Definition siteGroup (g : Article) : bool :=
  underSite (sectionUrl g) && forallb underSite (articleUrls g).

Definition siteItem (m : ModificationItem) : bool :=
  underSite (url m) && forallb siteGroup (articles m).

Definition siteData (data : ParsedData) : bool :=
  Js.startsWith (dateUrl data) (Js.lit "https://www.legifrance.gouv.fr")
  && forallb siteItem (modifications data).

(** The Markdown link of one article link of the page. *)
Definition linkText (artEl : Dom.Path * Dom.Node) : Js.str :=
  Js.lit "[" ++ Extracted.articleNumberOf artEl ++ Js.lit "]("
  ++ Extracted.articleUrlOf artEl ++ Js.lit ")".

(** *** Sample runs *)

Module Scenario.
#[local] Open Scope string_scope.
#[local] Open Scope list_scope.

(** A block whose title is [n] code units long. *)
Definition wideBlock (n : nat) : Dom.Node :=
  Sample.el "div" [("class", "content-detail-timeline")]
    [ Sample.el "h4" [("class", "txt-title")]
        [Dom.Elem (Js.lit "a") [(Js.lit "href", Js.lit "/jorf/id/4")]
           [Dom.Text (repeat 98%N n)]] ].

(** Two blocks that do not fit one description together. *)
Definition twoChunkPage : Dom.Document :=
  Sample.page [Sample.current [wideBlock 2500; wideBlock 2500]].

Definition wide : ModificationItem :=
  {| title := repeat 98%N 2500;
     url := Js.lit "https://www.legifrance.gouv.fr//jorf/id/4";
     action := [];
     articles := [] |}.

(** What [parseLegiData] returns on [twoChunkPage]. *)
Definition twoChunks : ParsedData :=
  {| date := Js.lit "07/01/2026";
     dateUrl := Js.lit "https://www.legifrance.gouv.fr/codes/id/07/01/2026";
     modifications := [wide; wide] |}.

(** A block that is itself the [h4.txt-title] holding its title link. *)
Definition selfTitled : Dom.Node :=
  Sample.el "h4" [("class", "content-detail-timeline txt-title")]
    [Sample.link "/jorf/id/5" "Title Z"].

Definition selfTitledPage : Dom.Document :=
  Sample.page [Sample.current [selfTitled; Sample.decree]].

(** The current version with one block, which has no title link. *)
Definition untitledPage : Dom.Document := Sample.page [Sample.current [Sample.untitled]].

(** The timeline without a version dated the 7th. *)
Definition stalePage : Dom.Document := Sample.page [Sample.older].

Definition owner : option Js.str := Some (Js.lit "42").

(** A channel that takes the first message and rejects the second. *)
Definition firstOnly (i : nat) : bool := Nat.eqb i 0.

Definition willing (i : nat) : bool := true.

(** A stand-in for [JSON.stringify] and [JSON.parse] on the logs: the
    text lists the dates of the entries, and the reader knows the texts of
    the logs of these runs. *)
Definition stringify (logs : list LegiLog) : Js.str :=
  Js.lit "[" ++ Js.join (Js.lit ",") (map log_date logs) ++ Js.lit "]".

Definition parse (data : Js.str) : option (list LegiLog) :=
  List.find (fun logs => Js.eqb (stringify logs) data) [[]; [Sample.entry]].

(** Three probes, one an hour: the first cannot write the file, the second
    can, the third finds no version item. *)
Definition evening : list (bool * Dom.Document * Z) :=
  [(false, Sample.before, 1767733200000%Z)].

Definition night : list (bool * Dom.Document * Z) :=
  [(false, Sample.otherYear, 1767740400000%Z)].

Definition tomorrow : JsDate.Local :=
  {| JsDate.getDate := 8%N; JsDate.getMonth := 0%N; JsDate.getFullYear := 2026%N |}.

End Scenario.

(* ================================================================== *)
(** * Properties *)

(** ** Lists built by pushing *)

Section Pushing.

Context {A B : Type}.

Lemma fold_left_agree (f g : B -> A -> B) (l : list A) (acc : B) :
  (forall b a, f b a = g b a) -> fold_left f l acc = fold_left g l acc.
Proof.
  intros E; revert acc; induction l as [|x l IH]; intros acc; cbn; [reflexivity|].
  now rewrite E, IH.
Qed.

Lemma fold_push_map (f : A -> B) (l : list A) (acc : list B) :
  fold_left (fun acc x => acc ++ [f x]) l acc = acc ++ map f l.
Proof.
  revert acc; induction l as [|x l IH]; intros acc; cbn.
  - now rewrite app_nil_r.
  - now rewrite IH, <- app_assoc.
Qed.

Lemma fold_push_filter (keep : A -> bool) (f : A -> B) (l : list A) (acc : list B) :
  fold_left (fun acc x => if keep x then acc ++ [f x] else acc) l acc
  = acc ++ map f (filter keep l).
Proof.
  revert acc; induction l as [|x l IH]; intros acc; cbn.
  - now rewrite app_nil_r.
  - rewrite IH. destruct (keep x); cbn; [now rewrite <- app_assoc | reflexivity].
Qed.

Lemma fold_push_pair {C : Type} (f : A -> B) (g : A -> C) (l : list A) (acc : list B * list C) :
  fold_left (fun acc x => (fst acc ++ [f x], snd acc ++ [g x])) l acc
  = (fst acc ++ map f l, snd acc ++ map g l).
Proof.
  revert acc; induction l as [|x l IH]; intros [bs cs]; cbn.
  - now rewrite !app_nil_r.
  - rewrite IH; cbn. now rewrite <- !app_assoc.
Qed.

End Pushing.

(** ** Selections are in document order *)

Section Selections.

Import Dom.

Lemma Node_forest_ind (P : Node -> Prop) :
  (forall d, P (Text d)) ->
  (forall d, P (Comment d)) ->
  (forall name attribs cs, Forall P cs -> P (Elem name attribs cs)) ->
  forall n, P n.
Proof.
  intros HT HC HE. fix IH 1. intros [d | d | name attribs cs].
  - apply HT.
  - apply HC.
  - apply HE. revert cs. fix IHcs 1. intros [|c cs]; constructor.
    + apply IH.
    + apply IHcs.
Qed.

Lemma search_Elem (rsel : list Compound) (anc : list Head) (p : Path)
    (name : Js.str) (attribs : list (Js.str * Js.str)) (cs : list Node) :
  search rsel anc p (Elem name attribs cs)
  = (if matches rsel anc (name, attribs) then [(p, Elem name attribs cs)] else [])
    ++ searchKids rsel ((name, attribs) :: anc) p 0 cs.
Proof.
  cbn [search]. f_equal. generalize 0. induction cs as [|c cs IH]; intros i; cbn.
  - reflexivity.
  - now rewrite IH.
Qed.

Lemma precedes_app (p a b : Path) : precedes (p ++ a) (p ++ b) = precedes a b.
Proof.
  induction p as [|x p IH]; cbn [precedes app]; [reflexivity|].
  rewrite Nat.ltb_irrefl, Nat.eqb_refl. exact IH.
Qed.

Lemma sorted_app {A : Type} (R : A -> A -> Prop) (l1 l2 : list A) :
  StronglySorted R l1 -> StronglySorted R l2 ->
  (forall a b, In a l1 -> In b l2 -> R a b) ->
  StronglySorted R (l1 ++ l2).
Proof.
  intros H1 H2 H. induction H1 as [|x l1 H1 IH Hx]; cbn; [exact H2|].
  constructor.
  - apply IH. intros a b Ha Hb. apply H; [now right | exact Hb].
  - apply Forall_app. split; [exact Hx|].
    rewrite Forall_forall. intros b Hb. apply H; [now left | exact Hb].
Qed.

(** The searches of successive children come one after the other. *)
Lemma kids_ordered (rsel : list Compound) (anc : list Head) (p : Path) (cs : list Node) :
  Forall (fun c => forall q,
            Forall (fun e => exists s, fst e = q ++ s) (search rsel anc q c) /\
            StronglySorted (fun a b => precedes (fst a) (fst b) = true)
              (search rsel anc q c)) cs ->
  forall i,
    Forall (fun e => exists j s, i <= j /\ fst e = p ++ j :: s) (searchKids rsel anc p i cs) /\
    StronglySorted (fun a b => precedes (fst a) (fst b) = true) (searchKids rsel anc p i cs).
Proof.
  induction 1 as [|c cs Hc _ IH]; intros i; cbn [searchKids]; [split; constructor|].
  destruct (Hc (p ++ [i])) as [Hp Hs].
  destruct (IH (S i)) as [Hp' Hs'].
  assert (Hhere : Forall (fun e => exists j s, i <= j /\ fst e = p ++ j :: s)
                    (search rsel anc (p ++ [i]) c)).
  { eapply Forall_impl; [|exact Hp]. intros e [s E]. exists i, s.
    split; [lia|]. now rewrite E, <- app_assoc. }
  split.
  - apply Forall_app. split; [exact Hhere|].
    eapply Forall_impl; [|exact Hp']. intros e (j & s & Hj & E).
    exists j, s. split; [lia | exact E].
  - apply sorted_app; [exact Hs | exact Hs' |].
    rewrite Forall_forall in Hp, Hp'. intros a b Ha Hb.
    destruct (Hp a Ha) as [s E]. destruct (Hp' b Hb) as (j & s' & Hj & E').
    destruct a as [pa na], b as [pb nb]. cbn [fst] in *. subst pa pb.
    rewrite <- app_assoc, precedes_app. cbn.
    apply orb_true_iff. left. apply Nat.ltb_lt. lia.
Qed.

(** What a search below position [p] returns lies below [p], in document
    order. *)
Lemma search_ordered (n : Node) :
  forall rsel anc p,
    Forall (fun e => exists s, fst e = p ++ s) (search rsel anc p n) /\
    StronglySorted (fun a b => precedes (fst a) (fst b) = true) (search rsel anc p n).
Proof.
  induction n as [d | d | name attribs cs IHcs] using Node_forest_ind;
    intros rsel anc p; try (split; constructor).
  rewrite search_Elem.
  destruct (@kids_ordered rsel ((name, attribs) :: anc) p cs) with (i := 0) as [Kp Ks].
  { eapply Forall_impl; [|exact IHcs]. intros c Hc q. apply Hc. }
  split.
  - apply Forall_app. split.
    + destruct (matches rsel anc (name, attribs)); constructor; [|constructor].
      exists []. cbn. now rewrite app_nil_r.
    + eapply Forall_impl; [|exact Kp]. intros e (j & s & _ & E). now exists (j :: s).
  - apply sorted_app; [|exact Ks|].
    + destruct (matches rsel anc (name, attribs)); repeat constructor.
    + intros a b Ha Hb. rewrite Forall_forall in Kp.
      destruct (Kp b Hb) as (j & s & _ & E).
      destruct (matches rsel anc (name, attribs)); [|contradiction].
      destruct Ha as [<- | []]. destruct b as [pb nb]. cbn [fst] in *. subst pb.
      rewrite <- (app_nil_r p) at 1. rewrite precedes_app. reflexivity.
Qed.

Lemma searchKids_ordered (rsel : list Compound) (anc : list Head) (p : Path) (cs : list Node) :
  forall i,
    Forall (fun e => exists j s, i <= j /\ fst e = p ++ j :: s) (searchKids rsel anc p i cs) /\
    StronglySorted (fun a b => precedes (fst a) (fst b) = true) (searchKids rsel anc p i cs).
Proof.
  apply kids_ordered. rewrite Forall_forall. intros c _ q. apply search_ordered.
Qed.

(** [$(selector)] lists its elements in document order. *)
Lemma query_ordered (doc : Document) (sel : Selector) :
  StronglySorted (fun a b => precedes (fst a) (fst b) = true) (query doc sel).
Proof. apply searchKids_ordered. Qed.

(** So does [find] from a single element. *)
Lemma find_ordered (ctx : Cheerio) (sel : Selector) :
  StronglySorted (fun a b => precedes (fst a) (fst b) = true) (find (first ctx) sel).
Proof.
  unfold find. destruct ctx as [|c ctx]; cbn; [constructor|].
  destruct (negb _); cbn; [|constructor].
  rewrite app_nil_r. apply searchKids_ordered.
Qed.

(** *** Selections hold nodes of the document *)

Lemma nodeAt_child (root : list Node) (q : Path) (n : Node) (i : nat) :
  nodeAt root q = Some n -> nodeAt root (q ++ [i]) = nth_error (children_of n) i.
Proof.
  revert root. induction q as [|j q IH]; intros root H; [discriminate|].
  destruct q as [|k q].
  - cbn in H |- *. now rewrite H.
  - change (nodeAt root (j :: k :: q))
      with (match nth_error root j with
            | Some m => nodeAt (children_of m) (k :: q)
            | None => None
            end) in H.
    change (nodeAt root ((j :: k :: q) ++ [i]))
      with (match nth_error root j with
            | Some m => nodeAt (children_of m) ((k :: q) ++ [i])
            | None => None
            end).
    destruct (nth_error root j) as [m|]; [|discriminate].
    apply IH. exact H.
Qed.

Lemma kids_at (root : list Node) (rsel : list Compound) (anc : list Head) (q : Path)
    (cs : list Node) :
  Forall (fun c => forall p, nodeAt root p = Some c ->
            Forall (fun e => nodeAt root (fst e) = Some (snd e)) (search rsel anc p c)) cs ->
  forall i,
    (forall k c, nth_error cs k = Some c -> nodeAt root (q ++ [i + k]) = Some c) ->
    Forall (fun e => nodeAt root (fst e) = Some (snd e)) (searchKids rsel anc q i cs).
Proof.
  induction 1 as [|c cs Hc _ IH]; intros i Hat; cbn [searchKids]; [constructor|].
  apply Forall_app. split.
  - apply Hc. specialize (Hat 0 c eq_refl). now rewrite Nat.add_0_r in Hat.
  - apply IH. intros k c' Hk. specialize (Hat (S k) c' Hk).
    now replace (S i + k) with (i + S k) by lia.
Qed.

Lemma search_at (root : list Node) (n : Node) :
  forall rsel anc p,
    nodeAt root p = Some n ->
    Forall (fun e => nodeAt root (fst e) = Some (snd e)) (search rsel anc p n).
Proof.
  induction n as [d | d | name attribs cs IHcs] using Node_forest_ind;
    intros rsel anc p Hp; try constructor.
  rewrite search_Elem. apply Forall_app. split.
  - destruct (matches rsel anc (name, attribs)); constructor; [exact Hp | constructor].
  - apply kids_at.
    + eapply Forall_impl; [|exact IHcs]. intros c Hc q. apply Hc.
    + intros k c Hk. rewrite (@nodeAt_child _ _ _ _ Hp). exact Hk.
Qed.

(** Every element of [$(selector)] sits in the document at its position. *)
Lemma query_at (doc : Document) (sel : Selector) :
  Forall (fun e => nodeAt doc (fst e) = Some (snd e)) (query doc sel).
Proof.
  apply kids_at.
  - rewrite Forall_forall. intros c _ p. apply search_at.
  - intros k c Hk. exact Hk.
Qed.

(** And so does every element found below elements of the document. *)
Lemma find_at (doc : Document) (ctx : Cheerio) (sel : Selector) :
  Forall (fun e => nodeAt doc (fst e) = Some (snd e)) ctx ->
  Forall (fun e => nodeAt doc (fst e) = Some (snd e)) (find ctx sel).
Proof.
  intros Hctx. unfold find. rewrite Forall_forall. intros e He.
  apply in_flat_map in He as (c & Hc & He).
  apply filter_In in Hc as [Hc _].
  rewrite Forall_forall in Hctx. specialize (Hctx c Hc).
  revert e He. rewrite <- Forall_forall. apply kids_at.
  - rewrite Forall_forall. intros c' _ p. apply search_at.
  - intros k c' Hk. rewrite (@nodeAt_child _ _ _ _ Hctx). exact Hk.
Qed.

Lemma first_at (doc : Document) (ctx : Cheerio) :
  Forall (fun e => nodeAt doc (fst e) = Some (snd e)) ctx ->
  Forall (fun e => nodeAt doc (fst e) = Some (snd e)) (first ctx).
Proof. intros H. destruct H; repeat constructor. assumption. Qed.

(** *** What [$(selector)] finds *)

(** The search of the children finds what the searches of each child
    find. *)
Lemma kids_spec (rsel : list Compound) (anc : list Head) (p : Path) (cs : list Node) :
  Forall (fun c => forall q e,
            In e (search rsel anc q c) <->
            exists s anc' name attribs kids,
              e = (q ++ s, Elem name attribs kids) /\
              descend c s anc = Some (anc', Elem name attribs kids) /\
              matches rsel anc' (name, attribs) = true) cs ->
  forall i e,
    In e (searchKids rsel anc p i cs) <->
    exists k c s anc' name attribs kids,
      nth_error cs k = Some c /\
      e = (p ++ (i + k) :: s, Elem name attribs kids) /\
      descend c s anc = Some (anc', Elem name attribs kids) /\
      matches rsel anc' (name, attribs) = true.
Proof.
  induction 1 as [|c cs Hc _ IH]; intros i e; cbn [searchKids].
  - split; [intros [] | intros (k & c & _ & _ & _ & _ & _ & Hk & _)].
    now destruct k.
  - rewrite in_app_iff, Hc, IH. split.
    + intros [(s & anc' & name & attribs & kids & E & D & M)
             | (k & c' & s & anc' & name & attribs & kids & Hk & E & D & M)].
      * exists 0, c, s, anc', name, attribs, kids. repeat split; try assumption.
        now rewrite E, <- app_assoc, Nat.add_0_r.
      * exists (S k), c', s, anc', name, attribs, kids. repeat split; try assumption.
        now rewrite E, <- plus_n_Sm.
    + intros (k & c' & s & anc' & name & attribs & kids & Hk & E & D & M).
      destruct k as [|k]; cbn in Hk.
      * left. injection Hk as <-. exists s, anc', name, attribs, kids.
        repeat split; try assumption.
        now rewrite E, <- app_assoc, Nat.add_0_r.
      * right. exists k, c', s, anc', name, attribs, kids. repeat split; try assumption.
        now rewrite E, <- plus_n_Sm.
Qed.

(** [search] finds exactly the elements at and below [n] that match, the
    ancestors passed on the way down being in sight. *)
Lemma search_spec (n : Node) :
  forall rsel anc q e,
    In e (search rsel anc q n) <->
    exists s anc' name attribs kids,
      e = (q ++ s, Elem name attribs kids) /\
      descend n s anc = Some (anc', Elem name attribs kids) /\
      matches rsel anc' (name, attribs) = true.
Proof.
  induction n as [d | d | name attribs cs IHcs] using Node_forest_ind;
    intros rsel anc q e.
  - split; [intros [] | intros (s & anc' & nm & at' & kids & _ & D & _)].
    destruct s; cbn in D; discriminate.
  - split; [intros [] | intros (s & anc' & nm & at' & kids & _ & D & _)].
    destruct s; cbn in D; discriminate.
  - rewrite search_Elem, in_app_iff, kids_spec.
    2:{ eapply Forall_impl; [|exact IHcs]. intros c Hc q' e'. apply Hc. }
    split.
    + intros [Here | (k & c & s & anc' & nm & at' & kids & Hk & E & D & M)].
      * destruct (matches rsel anc (name, attribs)) eqn:M; [|contradiction].
        destruct Here as [<- | []].
        exists [], anc, name, attribs, cs. rewrite app_nil_r. now repeat split.
      * exists (k :: s), anc', nm, at', kids. repeat split; try assumption.
        cbn [descend]. now rewrite Hk.
    + intros (s & anc' & nm & at' & kids & E & D & M).
      destruct s as [|k s]; cbn [descend] in D.
      * left. injection D as <- <- <- <-. rewrite M, E, app_nil_r. now left.
      * right. destruct (nth_error cs k) as [c|] eqn:Hk; [|discriminate].
        exists k, c, s, anc', nm, at', kids. now repeat split.
Qed.

(** [$(selector)] holds exactly the elements of the document that match
    the selector. *)
Lemma query_spec (doc : Document) (sel : Selector) (e : Path * Node) :
  In e (query doc sel) <->
  exists anc name attribs cs,
    snd e = Elem name attribs cs /\
    locate doc (fst e) = Some (anc, Elem name attribs cs) /\
    matches (rev sel) anc (name, attribs) = true.
Proof.
  unfold query, searchAll. rewrite kids_spec.
  2:{ rewrite Forall_forall. intros c _ q e'. apply search_spec. }
  split.
  - intros (k & c & s & anc & name & attribs & kids & Hk & -> & D & M).
    exists anc, name, attribs, kids. cbn. now rewrite Hk.
  - intros (anc & name & attribs & kids & E & L & M).
    destruct e as [[|k s] n]; cbn in E, L; [discriminate|]. subst n.
    destruct (nth_error doc k) as [c|] eqn:Hk; [|discriminate].
    exists k, c, s, anc, name, attribs, kids. now repeat split.
Qed.

(** [find] from one element returns exactly the elements below it that
    match, the element itself being the outermost ancestor in sight. *)
Lemma find_spec (c e : Path * Node) (sel : Selector) :
  In e (find [c] sel) <-> below c sel e.
Proof.
  unfold find, outermost. cbn [filter existsb].
  assert (P : isProperPrefix (fst c) (fst c) = false).
  { unfold isProperPrefix. rewrite Nat.ltb_irrefl. apply andb_false_r. }
  rewrite P. cbn [orb negb flat_map]. rewrite app_nil_r.
  rewrite kids_spec.
  2:{ rewrite Forall_forall. intros c' _ q e'. apply search_spec. }
  destruct c as [p n]. cbn [fst snd]. unfold below. cbn [fst snd]. split.
  - intros (k & child & s & anc & name & attribs & kids & Hk & -> & D & M).
    exists (k :: s), anc, name, attribs, kids. cbn [fst snd].
    split; [discriminate|]. split; [reflexivity|]. split; [reflexivity|].
    split; [|exact M].
    destruct n as [d | d | nm at' cs]; cbn in Hk; try (destruct k; discriminate).
    cbn [descend]. rewrite Hk. exact D.
  - intros (s & anc & name & attribs & kids & Hs & Ep & En & D & M).
    destruct s as [|k s]; [contradiction|].
    destruct n as [d | d | nm at' cs]; cbn [descend] in D; try discriminate.
    destruct (nth_error cs k) as [child|] eqn:Hk; [|discriminate].
    exists k, child, s, anc, name, attribs, kids.
    split; [exact Hk|]. split; [|split; [exact D | exact M]].
    destruct e as [q m]. cbn [fst snd] in Ep, En. now subst.
Qed.

(** The selection is empty exactly when no element matches. *)
Lemma query_nil_iff (doc : Document) (sel : Selector) :
  query doc sel = [] <-> ~ occurs doc sel.
Proof.
  split.
  - intros E (p & anc & name & attribs & cs & L & M).
    assert (H : In (p, Elem name attribs cs) (query doc sel)).
    { apply query_spec. exists anc, name, attribs, cs. now repeat split. }
    rewrite E in H. exact H.
  - intros N. destruct (query doc sel) as [|e l] eqn:E; [reflexivity|].
    exfalso. apply N.
    assert (H : In e (query doc sel)) by (rewrite E; now left).
    apply query_spec in H as (anc & name & attribs & cs & _ & L & M).
    now exists (fst e), anc, name, attribs, cs.
Qed.

Lemma occurs_iff (doc : Document) (sel : Selector) :
  occurs doc sel <-> query doc sel <> [].
Proof.
  split.
  - intros O E. now apply query_nil_iff in E.
  - intros N. destruct (query doc sel) as [|e l] eqn:E; [contradiction|].
    assert (H : In e (query doc sel)) by (rewrite E; now left).
    apply query_spec in H as (anc & name & attribs & cs & _ & L & M).
    now exists (fst e), anc, name, attribs, cs.
Qed.

End Selections.

(** ** The parser *)

Section Parser.

Import Extracted.

Lemma eachListItem_pushes (articles : list Article) (itemEl : Dom.Path * Dom.Node) :
  eachListItem articles itemEl = articles ++ [articleGroupOf itemEl].
Proof.
  unfold eachListItem, articleGroupOf, Dom.each.
  change eachArticleLink
    with (fun (acc : list Js.str * list Js.str) x =>
            (fst acc ++ [articleNumberOf x], snd acc ++ [articleUrlOf x])).
  rewrite fold_push_pair. reflexivity.
Qed.

Lemma eachModification_pushes (mods : list ModificationItem) (modifEl : Dom.Path * Dom.Node) :
  eachModification mods modifEl
  = if hasTitleLink modifEl then mods ++ [modificationOf modifEl] else mods.
Proof.
  unfold eachModification, hasTitleLink, modificationOf, Dom.each.
  destruct (Nat.eqb _ 0); cbn [negb]; [reflexivity|].
  do 2 f_equal. f_equal.
  rewrite (fold_left_agree _ (fun acc x => acc ++ [articleGroupOf x])).
  - now rewrite fold_push_map.
  - intros; apply eachListItem_pushes.
Qed.

(** The loop over the blocks is a filter followed by a map. *)
Lemma parseLegiData_unfold (today : JsDate.Local) (doc : Dom.Document) :
  parseLegiData today doc =
  match Dom.query doc (Sel.versionToday (todayFormatted today)),
        Dom.first (Dom.query doc Sel.currentVersion) with
  | [], _ => None
  | _ :: _, [] => None
  | _ :: _, (_ :: _) as container =>
      let dateLink := Dom.find container Sel.timelineTitleLink in
      Some {| date := Js.trim (Dom.text dateLink);
              dateUrl := Js.plus (Js.lit "https://www.legifrance.gouv.fr")
                           (Dom.attr dateLink href);
              modifications := map modificationOf (filter hasTitleLink (blocksOf doc)) |}
  end.
Proof.
  unfold parseLegiData, blocksOf, Dom.each.
  destruct (Dom.query doc (Sel.versionToday _)) as [|v vs]; [reflexivity|].
  cbn [length Nat.eqb].
  destruct (Dom.first (Dom.query doc Sel.currentVersion)) as [|c cs] eqn:Ec;
    [reflexivity|].
  cbn [length Nat.eqb]. cbv zeta. do 2 f_equal.
  rewrite (fold_left_agree _ _ _ _ eachModification_pushes).
  now rewrite fold_push_filter.
Qed.

Lemma first_nil (sel : Dom.Cheerio) : Dom.first sel = [] <-> sel = [].
Proof. destruct sel; cbn; split; congruence. Qed.

Lemma parseLegiData_some (today : JsDate.Local) (doc : Dom.Document) (data : ParsedData) :
  parseLegiData today doc = Some data ->
  Dom.query doc (Sel.versionToday (todayFormatted today)) <> [] /\
  Dom.query doc Sel.currentVersion <> [] /\
  modifications data = map modificationOf (filter hasTitleLink (blocksOf doc)).
Proof.
  rewrite parseLegiData_unfold.
  destruct (Dom.query doc (Sel.versionToday _)) as [|v vs]; [discriminate|].
  destruct (Dom.first (Dom.query doc Sel.currentVersion)) as [|c cs] eqn:Ec;
    [discriminate|].
  intros [= <-]. repeat split; try discriminate.
  intros E. apply first_nil in E. congruence.
Qed.

(** C4.  [parseLegiData] returns [null] exactly when the page has no
    link dated [DD/MM/YYYY] of the reference day inside a version item, or
    has one but no version item flagged as the current version; when the
    current-version container is there and holds no modification block, the
    result is a snapshot whose [modifications] is empty, not [null]. *)
Theorem parseLegiData_null_iff (today : JsDate.Local) (doc : Dom.Document) :
  let marker := Sel.versionToday (todayFormatted today) in
  (parseLegiData today doc = None <->
     ~ Dom.occurs doc marker \/
     (Dom.occurs doc marker /\ ~ Dom.occurs doc Sel.currentVersion)) /\
  (Dom.occurs doc marker -> Dom.occurs doc Sel.currentVersion -> blocksOf doc = [] ->
     exists data, parseLegiData today doc = Some data /\ modifications data = []).
Proof.
  cbv zeta. rewrite parseLegiData_unfold, !occurs_iff.
  destruct (Dom.query doc (Sel.versionToday _)) as [|v vs].
  - split; [split; [intros _; left; intros H; now apply H | reflexivity]|].
    intros H. now contradiction H.
  - destruct (Dom.query doc Sel.currentVersion) as [|c cs] eqn:Ec; cbn [Dom.first].
    + split; [|intros _ H; now contradiction H].
      split; [|reflexivity]. intros _. right. split; [discriminate|]. intros H. now apply H.
    + split.
      * split; [discriminate|]. intros [H | [_ H]]; exfalso; apply H; discriminate.
      * intros _ _ Hb. eexists; split; [reflexivity|]. cbn. now rewrite Hb.
Qed.

Lemma hasTitleLink_iff (b : Dom.Path * Dom.Node) :
  hasTitleLink b = true <-> exists a, Dom.below b Sel.titleLink a.
Proof.
  unfold hasTitleLink, Dom.wrap.
  destruct (Dom.find [b] Sel.titleLink) as [|a l] eqn:E; cbn [length Nat.eqb negb].
  - split; [discriminate|]. intros [a H]. apply find_spec in H.
    rewrite E in H. contradiction.
  - split; [|reflexivity]. intros _. exists a. apply find_spec.
    rewrite E. now left.
Qed.

Lemma blocksOf_iff (doc : Dom.Document) (container b : Dom.Path * Dom.Node) :
  Dom.first (Dom.query doc Sel.currentVersion) = [container] ->
  In b (blocksOf doc) <-> Dom.below container Sel.contentDetailTimeline b.
Proof. intros E. unfold blocksOf. rewrite E. apply find_spec. Qed.

(** C5.  When [parseLegiData] returns a snapshot, its [modifications] are
    the blocks of the current-version container that have a title link,
    each turned into its record, in the order of the blocks.  The
    container is the first element [.version-item.current-version] of the
    page; the blocks are exactly the elements [.content-detail-timeline]
    below it, each listed once, in document order; a block has a title
    link exactly when an [a] lies below it under an [h4.txt-title] that
    is the block itself or lies below it.  A block with no title link
    leaves no trace, so when all [N] blocks have one there are [N]
    modifications, the i-th from the i-th block. *)
Theorem parseLegiData_modifications (today : JsDate.Local) (doc : Dom.Document)
    (data : ParsedData) :
  parseLegiData today doc = Some data ->
  (exists container,
     Dom.first (Dom.query doc Sel.currentVersion) = [container] /\
     forall b, In b (blocksOf doc)
               <-> Dom.below container Sel.contentDetailTimeline b) /\
  (forall b, hasTitleLink b = true <-> exists a, Dom.below b Sel.titleLink a) /\
  modifications data = map modificationOf (filter hasTitleLink (blocksOf doc)) /\
  Forall (fun b => Dom.nodeAt doc (fst b) = Some (snd b)) (blocksOf doc) /\
  StronglySorted (fun a b => Dom.precedes (fst a) (fst b) = true) (blocksOf doc) /\
  (forallb hasTitleLink (blocksOf doc) = true ->
     length (modifications data) = length (blocksOf doc) /\
     forall i, nth_error (modifications data) i
               = option_map modificationOf (nth_error (blocksOf doc) i)).
Proof.
  intros H. apply parseLegiData_some in H as (_ & Hc & ->).
  split.
  { destruct (Dom.query doc Sel.currentVersion) as [|c cs] eqn:Ec; [contradiction|].
    exists c. split; [reflexivity|]. intros b. apply blocksOf_iff.
    now rewrite Ec. }
  split; [exact hasTitleLink_iff|].
  split; [reflexivity|].
  split; [apply find_at, first_at, query_at|].
  split; [apply find_ordered|]. intros Hall.
  assert (E : filter hasTitleLink (blocksOf doc) = blocksOf doc).
  { apply forallb_filter_id. exact Hall. }
  rewrite E. split; [apply length_map|]. intros i. apply nth_error_map.
Qed.

(** C9.  Every article group of a snapshot returned by [parseLegiData] was
    built from the article links of one list item: its numbers and its
    urls are the images of the same sequence of links, so they have the
    same length and the i-th url is the resolved [href] of the link whose
    text is the i-th number. *)
Theorem article_groups_aligned (today : JsDate.Local) (doc : Dom.Document)
    (data : ParsedData) (m : ModificationItem) (g : Article) :
  parseLegiData today doc = Some data ->
  In m (modifications data) ->
  In g (articles m) ->
  length (articleNumbers g) = length (articleUrls g) /\
  exists itemEl,
    In itemEl (itemsOf doc) /\
    articleNumbers g = map articleNumberOf (articleLinksOf itemEl) /\
    articleUrls g = map articleUrlOf (articleLinksOf itemEl) /\
    forall i, nth_error (articleNumbers g) i
                = option_map articleNumberOf (nth_error (articleLinksOf itemEl) i) /\
              nth_error (articleUrls g) i
                = option_map articleUrlOf (nth_error (articleLinksOf itemEl) i).
Proof.
  intros H Hm Hg. apply parseLegiData_some in H as (_ & _ & E).
  rewrite E in Hm. apply in_map_iff in Hm as (b & <- & Hb).
  cbn in Hg. apply in_map_iff in Hg as (itemEl & <- & Hi).
  cbn. split; [now rewrite !length_map|].
  exists itemEl. split.
  - unfold itemsOf. apply in_flat_map. now exists b.
  - repeat split; apply nth_error_map.
Qed.

(** C3, as the code has it.  For a list item with no link whose [href]
    contains [section_lc], the article group pushed has an empty
    [sectionName], but its [sectionUrl] is the base URL followed by
    [undefined], not the empty string. *)
Theorem section_of_item_without_link (articles : list Article)
    (itemEl : Dom.Path * Dom.Node) :
  sectionLinkOf itemEl = [] ->
  exists g,
    eachListItem articles itemEl = articles ++ [g] /\
    sectionName g = [] /\
    sectionUrl g = Js.lit "https://www.legifrance.gouv.fr/undefined" /\
    sectionUrl g <> [].
Proof.
  intros H. exists (articleGroupOf itemEl).
  split; [apply eachListItem_pushes|].
  unfold articleGroupOf; cbn [sectionName sectionUrl]. rewrite H.
  repeat split. discriminate.
Qed.

End Parser.

(** ** The formatter *)

Section Formatter.

Variable maxLength : nat.
Variable clock : nat -> Z.
Variable validUrl : Js.str -> bool.
Variable data : ParsedData.

Lemma appendArticleGroup_extends (content : Js.str) (g : Article) :
  exists tail, appendArticleGroup content g = content ++ tail.
Proof.
  unfold appendArticleGroup. destruct (Js.truthy (sectionName g)).
  - rewrite <- !app_assoc. eexists; reflexivity.
  - rewrite <- !app_assoc. eexists; reflexivity.
Qed.

Lemma fold_appendArticleGroup_extends (gs : list Article) (content : Js.str) :
  exists tail, fold_left appendArticleGroup gs content = content ++ tail.
Proof.
  revert content; induction gs as [|g gs IH]; intros content; cbn.
  - exists []. now rewrite app_nil_r.
  - destruct (appendArticleGroup_extends content g) as [t1 ->].
    destruct (IH (content ++ t1)) as [t2 ->].
    exists (t1 ++ t2). now rewrite app_assoc.
Qed.

(** A rendered block is never empty: it opens with a line break. *)
Lemma modifContent_nonempty (m : ModificationItem) : modifContent m <> [].
Proof.
  unfold modifContent.
  destruct (fold_appendArticleGroup_extends (articles m)
              ((nl ++ Js.lit "### " ++ actionEmoji (action m) ++ Js.lit " [" ++ title m
                  ++ Js.lit "](" ++ url m ++ Js.lit ")")
               ++ nl ++ Js.lit "*" ++ action m ++ Js.lit "*" ++ nl)) as [t ->].
  discriminate.
Qed.

Lemma flat_map_nonempty_nil (g : list ModificationItem) :
  flat_map modifContent g = [] -> g = [].
Proof.
  destruct g as [|m g]; [reflexivity|]. cbn. intros H.
  apply app_eq_nil in H as [H _]. now apply modifContent_nonempty in H.
Qed.

Lemma body_withDescription (e : EmbedBuilder) (d : Js.str) : body (withDescription e d) = d.
Proof. reflexivity. Qed.

(** One pass of the layout keeps the blocks seen so far split in groups:
    one group per sealed chunk and one for the description in progress. *)
Lemma layout_step (st : Pagination) (m : ModificationItem)
    (gs : list (list ModificationItem)) (g : list ModificationItem) :
  map body (embeds st) = map (flat_map modifContent) gs ->
  currentDescription st = flat_map modifContent g ->
  exists gs' g',
    concat gs' ++ g' = concat gs ++ g ++ [m] /\
    map body (embeds (layoutStep maxLength clock data st m))
      = map (flat_map modifContent) gs' /\
    currentDescription (layoutStep maxLength clock data st m) = flat_map modifContent g'.
Proof.
  intros He Hd. unfold layoutStep.
  destruct (Nat.ltb maxLength _).
  - exists (gs ++ [g]), [m]. cbn [embeds currentDescription]. repeat split.
    + rewrite concat_app. cbn. now rewrite app_nil_r, <- app_assoc.
    + rewrite !map_app, He. cbn. now rewrite Hd.
    + cbn. now rewrite app_nil_r.
  - exists gs, (g ++ [m]). cbn [embeds currentDescription]. repeat split.
    + exact He.
    + rewrite flat_map_app, Hd. cbn. now rewrite app_nil_r.
Qed.

Lemma layout_groups (mods : list ModificationItem) :
  forall (st : Pagination) (gs : list (list ModificationItem)) (g : list ModificationItem),
    map body (embeds st) = map (flat_map modifContent) gs ->
    currentDescription st = flat_map modifContent g ->
    exists gs' g',
      concat gs' ++ g' = concat gs ++ g ++ mods /\
      map body (embeds (fold_left (layoutStep maxLength clock data) mods st))
        = map (flat_map modifContent) gs' /\
      currentDescription (fold_left (layoutStep maxLength clock data) mods st)
        = flat_map modifContent g'.
Proof.
  induction mods as [|m mods IH]; intros st gs g He Hd; cbn [fold_left].
  - exists gs, g. now rewrite app_nil_r.
  - destruct (layout_step st m gs g He Hd) as (gs1 & g1 & Hc1 & He1 & Hd1).
    destruct (IH _ gs1 g1 He1 Hd1) as (gs' & g' & Hc & He' & Hd').
    exists gs', g'. split; [|split; [exact He' | exact Hd']].
    rewrite Hc, app_assoc, Hc1. now rewrite <- !app_assoc.
Qed.

Lemma flat_map_concat {A B : Type} (f : A -> list B) (l : list (list A)) :
  flat_map f (concat l) = concat (map (flat_map f) l).
Proof.
  induction l as [|x l IH]; cbn; [reflexivity|]. now rewrite flat_map_app, IH.
Qed.

(** The chunks as laid out are the blocks of consecutive groups. *)
Lemma layout_lossless :
  (exists groups : list (list ModificationItem),
     concat groups = modifications data /\
     map body (layout maxLength clock data)
       = map (flat_map modifContent) groups) /\
  flat_map body (layout maxLength clock data)
    = flat_map modifContent (modifications data).
Proof.
  assert (G : exists groups : list (list ModificationItem),
             concat groups = modifications data /\
             map body (layout maxLength clock data)
               = map (flat_map modifContent) groups).
  { unfold layout, layoutAll.
    destruct (layout_groups (modifications data)
                {| embeds := []; currentEmbed := firstHeader clock data;
                   currentDescription := [] |} [] [] eq_refl eq_refl)
      as (gs & g & Hc & He & Hd).
    cbn in Hc. cbv zeta.
    destruct (currentDescription _) as [|c d] eqn:Ed; cbn [length Nat.ltb Nat.leb].
    - symmetry in Hd. apply flat_map_nonempty_nil in Hd. subst g.
      exists gs. rewrite app_nil_r in Hc. now split.
    - exists (gs ++ [g]). split.
      + rewrite concat_app. cbn. now rewrite app_nil_r.
      + rewrite !map_app, He. cbn. now rewrite Hd. }
  split; [exact G|].
  destruct G as (groups & Hc & Hb).
  rewrite (flat_map_concat_map body), <- Hc, flat_map_concat.
  f_equal. exact Hb.
Qed.

(** *** What [formatEmbeds] returns is the layout *)

Lemma setDescription_some (e e' : EmbedBuilder) (d : Js.str) :
  setDescription e d = Some e' -> e' = withDescription e d /\ descriptionOk d = true.
Proof.
  unfold setDescription. destruct (descriptionOk d); [|discriminate].
  intros [= <-]. now split.
Qed.

Lemma build_some (h e : EmbedBuilder) : build validUrl h = Some e -> e = h.
Proof. unfold build. destruct (headerOk _ _); [|discriminate]. now intros [= <-]. Qed.

Lemma paginate_layout (st st' : Pagination) (m : ModificationItem) :
  paginate maxLength clock validUrl data st m = Some st' ->
  st' = layoutStep maxLength clock data st m.
Proof.
  unfold paginate, layoutStep. cbv zeta.
  destruct (Nat.ltb maxLength _); [|now intros [= <-]].
  destruct (setDescription _ _) as [full|] eqn:S; [|discriminate].
  apply setDescription_some in S as [-> _].
  unfold nextEmbed. destruct (build _ _) as [fresh|] eqn:B; [|discriminate].
  apply build_some in B. subst fresh. now intros [= <-].
Qed.

Lemma continue_None (mods : list ModificationItem) :
  fold_left (continue maxLength clock validUrl data) mods None = None.
Proof. induction mods as [|m mods IH]; [reflexivity | exact IH]. Qed.

Lemma continue_layout (mods : list ModificationItem) (st st' : Pagination) :
  fold_left (continue maxLength clock validUrl data) mods (Some st) = Some st' ->
  st' = fold_left (layoutStep maxLength clock data) mods st.
Proof.
  revert st; induction mods as [|m mods IH]; intros st; cbn [fold_left continue].
  - now intros [= <-].
  - destruct (paginate maxLength clock validUrl data st m) as [st1|] eqn:P.
    + apply paginate_layout in P. subst st1. apply IH.
    + rewrite continue_None. discriminate.
Qed.

Lemma formatEmbeds_layout (chunks : list EmbedBuilder) :
  formatEmbedsWithin maxLength clock validUrl data = Some chunks ->
  chunks = layout maxLength clock data.
Proof.
  unfold formatEmbedsWithin, paginateAll, firstEmbed, layout, layoutAll. cbv zeta.
  destruct (build validUrl _) as [e|] eqn:B; [|discriminate].
  apply build_some in B. subst e.
  destruct (fold_left _ _ _) as [st|] eqn:F; [|discriminate].
  apply continue_layout in F. rewrite <- F.
  destruct (Nat.ltb 0 _); [|now intros [= <-]].
  destruct (setDescription _ _) as [full|] eqn:S; [|discriminate].
  apply setDescription_some in S as [-> _]. now intros [= <-].
Qed.

(** Every description that is set went through the check of the builder. *)
Lemma continue_checked (mods : list ModificationItem) (st st' : Pagination) :
  fold_left (continue maxLength clock validUrl data) mods (Some st) = Some st' ->
  Forall (fun e => descriptionOk (body e) = true) (embeds st) ->
  Forall (fun e => descriptionOk (body e) = true) (embeds st').
Proof.
  revert st; induction mods as [|m mods IH]; intros st; cbn [fold_left continue].
  - now intros [= <-].
  - destruct (paginate maxLength clock validUrl data st m) as [st1|] eqn:P.
    + intros F H. apply (IH st1 F). revert P. unfold paginate. cbv zeta.
      destruct (Nat.ltb maxLength _); [|now intros [= <-]].
      destruct (setDescription _ _) as [full|] eqn:S; [|discriminate].
      apply setDescription_some in S as [-> S].
      destruct (nextEmbed _ _ _ _); [|discriminate]. intros [= <-]. cbn [embeds].
      apply Forall_app. split; [exact H|]. now repeat constructor.
    + rewrite continue_None. discriminate.
Qed.

Lemma formatEmbeds_checked (chunks : list EmbedBuilder) :
  formatEmbedsWithin maxLength clock validUrl data = Some chunks ->
  Forall (fun e => descriptionOk (body e) = true) chunks.
Proof.
  unfold formatEmbedsWithin, paginateAll.
  destruct (firstEmbed clock validUrl data) as [e|]; [|discriminate].
  destruct (fold_left _ _ _) as [st|] eqn:F; [|discriminate].
  apply continue_checked in F; [|constructor].
  destruct (Nat.ltb 0 _); [|now intros [= <-]].
  destruct (setDescription _ _) as [full|] eqn:S; [|discriminate].
  apply setDescription_some in S as [-> S]. intros [= <-].
  apply Forall_app. split; [exact F|]. now repeat constructor.
Qed.


Lemma layout_bounded (mods : list ModificationItem) :
  Forall (fun m => length (modifContent m) <= maxLength) mods ->
  forall st : Pagination,
    Forall (fun e => length (body e) <= maxLength) (embeds st) ->
    length (currentDescription st) <= maxLength ->
    Forall (fun e => length (body e) <= maxLength)
      (embeds (fold_left (layoutStep maxLength clock data) mods st)) /\
    length (currentDescription (fold_left (layoutStep maxLength clock data) mods st))
      <= maxLength.
Proof.
  induction 1 as [|m mods Hm _ IH]; intros st He Hd; cbn [fold_left]; [now split|].
  apply IH; unfold layoutStep;
    destruct (Nat.ltb maxLength _) eqn:Hlt; cbn [embeds currentDescription].
  - apply Forall_app. split; [exact He|]. constructor; [exact Hd | constructor].
  - exact He.
  - exact Hm.
  - apply Nat.ltb_ge in Hlt. exact Hlt.
Qed.

Lemma layout_within :
  Forall (fun m => length (modifContent m) <= maxLength) (modifications data) ->
  Forall (fun e => length (body e) <= maxLength) (layout maxLength clock data).
Proof.
  intros Hm. unfold layout, layoutAll.
  destruct (layout_bounded Hm
              {| embeds := []; currentEmbed := firstHeader clock data;
                 currentDescription := [] |}) as [He Hd].
  - constructor.
  - cbn. lia.
  - cbv zeta. destruct (Nat.ltb 0 _); [|exact He].
    apply Forall_app. split; [exact He|]. constructor; [exact Hd | constructor].
Qed.

(** C2, amended.  When no modification alone renders to more than the
    bound, every chunk that [formatEmbeds] returns has a body of at most
    [maxLength] code units. *)
Theorem formatEmbeds_bounded (chunks : list EmbedBuilder) :
  formatEmbedsWithin maxLength clock validUrl data = Some chunks ->
  Forall (fun m => length (modifContent m) <= maxLength) (modifications data) ->
  Forall (fun e => length (body e) <= maxLength) chunks.
Proof.
  intros H Hm. apply formatEmbeds_layout in H. subst chunks. exact (layout_within Hm).
Qed.

(** When the first block alone overflows, the overflow check seals the
    first builder while its description is still empty, and
    [setDescription("")] throws. *)
Lemma first_block_throws (m : ModificationItem) (rest : list ModificationItem) :
  modifications data = m :: rest ->
  maxLength < length (modifContent m) ->
  formatEmbedsWithin maxLength clock validUrl data = None.
Proof.
  intros Hm Hlen. unfold formatEmbedsWithin, paginateAll. rewrite Hm.
  destruct (firstEmbed clock validUrl data) as [e|]; [|reflexivity].
  cbn [fold_left continue]. unfold paginate. cbv zeta.
  cbn [currentDescription app currentEmbed].
  apply Nat.ltb_lt in Hlen. rewrite Hlen. cbn [setDescription descriptionOk length Nat.leb andb].
  now rewrite continue_None.
Qed.

End Formatter.

Lemma parse_longPage :
  parseLegiData Sample.today Sample.longPage = Some Sample.longSnapshot.
Proof. vm_compute. reflexivity. Qed.

Lemma parse_mixedPage :
  parseLegiData Sample.today Sample.mixedPage = Some Sample.mixedSnapshot.
Proof. vm_compute. reflexivity. Qed.


(** C2, as stated, fails: the snapshot of [Sample.mixedPage] has a short
    block followed by one of 4057 code units, more than [MAX_DESC_LENGTH]
    and no more than the builder takes; [formatEmbeds] returns two chunks,
    and the second holds the long block whole. *)
Lemma formatEmbeds_unbounded :
  exists chunks,
    formatEmbeds Sample.clock Sample.validUrl Sample.mixedSnapshot = Some chunks /\
    map (fun e => length (body e)) chunks = [135; 4057] /\
    ~ Forall (fun e => length (body e) <= MAX_DESC_LENGTH) chunks.
Proof.
  destruct (formatEmbeds Sample.clock Sample.validUrl Sample.mixedSnapshot)
    as [chunks|] eqn:E; [|vm_compute in E; discriminate].
  exists chunks. split; [reflexivity|].
  assert (L : map (fun e => length (body e)) chunks = [135; 4057]).
  { assert (C : option_map (map (fun e => length (body e)))
                  (formatEmbeds Sample.clock Sample.validUrl Sample.mixedSnapshot)
                = Some [135; 4057]) by (vm_compute; reflexivity).
    rewrite E in C. cbn [option_map] in C. now injection C. }
  split; [exact L|]. intros F.
  assert (B : Forall (fun n => n <= MAX_DESC_LENGTH) (map (fun e => length (body e)) chunks)).
  { rewrite Forall_map. exact F. }
  rewrite L in B. apply Forall_inv_tail, Forall_inv in B.
  apply Nat.leb_le in B. vm_compute in B. discriminate.
Qed.



(** ** The tracker *)

Section TrackerFacts.

Variable serialize : list Dom.Node -> Js.str.

Lemma lastLog_snoc (older : list LegiLog) (l : LegiLog) : lastLog (older ++ [l]) = Some l.
Proof.
  unfold lastLog. rewrite length_app. cbn [length].
  replace (length older + 1 - 1) with (length older) by lia.
  rewrite nth_error_app2 by lia. now rewrite Nat.sub_diag.
Qed.

(** The guard of [channel.send] compares the last log with the probe. *)
Lemma newVersion_iff (logs : list LegiLog) (items : list VersionItem) :
  newVersion logs items = true <->
  exists older l, logs = older ++ [l] /\ length (versionItems l) < length items.
Proof.
  induction logs as [|l older _] using rev_ind.
  - split; [discriminate|]. intros (older & l & E & _). now destruct older.
  - unfold newVersion. rewrite lastLog_snoc, length_app. cbn [length].
    replace (Nat.ltb 0 (length older + 1)) with true
      by (symmetry; apply Nat.ltb_lt; lia).
    cbn [andb]. rewrite Nat.ltb_lt. split.
    + intros H. now exists older, l.
    + intros (older' & l' & E & H). apply app_inj_tail in E as [_ <-]. exact H.
Qed.

Lemma notify_newVersion (doc : Dom.Document) (now : Z) (bot : Bot) :
  notify serialize doc now bot
  = negb (Nat.eqb (length (probedItems doc)) 0)
    && newVersion (observedLogs bot) (map (formatVersionItem serialize) (probedItems doc)).
Proof.
  unfold notify, processLogUpdates.
  destruct (Nat.eqb (length (probedItems doc)) 0); cbn [negb andb].
  - apply Nat.ltb_irrefl.
  - destruct (newVersion _ _); cbn [sent].
    + rewrite length_app. cbn. apply Nat.ltb_lt. lia.
    + apply Nat.ltb_irrefl.
Qed.

(** C1.  A probe hands the alert to the channel if and only if the log is
    not empty and its last entry holds strictly fewer version items than
    the probe extracts from the page.  So, after an entry of [K] items, a
    page with [K] items raises no alert, one with [K + 1] raises it, one
    with [K - 1] raises none. *)
Theorem notify_iff (doc : Dom.Document) (now : Z) (bot : Bot) :
  (notify serialize doc now bot = true <->
     exists older l,
       observedLogs bot = older ++ [l] /\
       length (versionItems l) < length (probedItems doc)) /\
  (forall older l,
     observedLogs bot = older ++ [l] ->
     (length (probedItems doc) = length (versionItems l) ->
        notify serialize doc now bot = false) /\
     (length (probedItems doc) = length (versionItems l) + 1 ->
        notify serialize doc now bot = true) /\
     (length (probedItems doc) = length (versionItems l) - 1 ->
        notify serialize doc now bot = false)).
Proof.
  assert (G : notify serialize doc now bot = true <->
              exists older l,
                observedLogs bot = older ++ [l] /\
                length (versionItems l) < length (probedItems doc)).
  { rewrite notify_newVersion, andb_true_iff, newVersion_iff, length_map.
    split.
    - intros [_ H]. exact H.
    - intros (older & l & E & H). split; [|now exists older, l].
      destruct (probedItems doc); [cbn in H; lia | reflexivity]. }
  split; [exact G|].
  intros older l E. repeat split; intros H.
  - apply not_true_is_false. rewrite G.
    intros (older' & l' & E' & H'). rewrite E in E'.
    apply app_inj_tail in E' as [_ <-]. lia.
  - apply G. exists older, l. split; [exact E | lia].
  - apply not_true_is_false. rewrite G.
    intros (older' & l' & E' & H'). rewrite E in E'.
    apply app_inj_tail in E' as [_ <-]. lia.
Qed.

(** C8.  When the page has no version item under the 2026 panel, the
    probe changes nothing: no entry is pushed, nothing is sent, nothing is
    written. *)
Theorem probe_without_items (doc : Dom.Document) (now : Z) (bot : Bot) :
  probedItems doc = [] ->
  processLogUpdates serialize doc now bot = bot /\
  observedLogs (processLogUpdates serialize doc now bot) = observedLogs bot /\
  notify serialize doc now bot = false.
Proof.
  intros H.
  assert (E : processLogUpdates serialize doc now bot = bot).
  { unfold processLogUpdates. now rewrite H. }
  repeat split; [exact E | now rewrite E |].
  unfold notify. rewrite E. apply Nat.ltb_irrefl.
Qed.

(** A probe that finds items pushes one entry, whatever the comparison
    says. *)
Lemma probe_pushes (doc : Dom.Document) (now : Z) (bot : Bot) :
  probedItems doc <> [] ->
  observedLogs (processLogUpdates serialize doc now bot)
  = observedLogs bot ++
    [{| log_date := JsDate.toISOString now;
        versionItems := map (formatVersionItem serialize) (probedItems doc) |}].
Proof.
  intros H. unfold processLogUpdates.
  destruct (probedItems doc) as [|x xs]; [contradiction|]. reflexivity.
Qed.

Lemma probes_push (runs : list (Dom.Document * Z)) :
  Forall (fun r => probedItems (fst r) <> []) runs ->
  forall bot : Bot,
    observedLogs (probes serialize runs bot)
    = observedLogs bot ++
      map (fun r => {| log_date := JsDate.toISOString (snd r);
                       versionItems := map (formatVersionItem serialize)
                                         (probedItems (fst r)) |}) runs.
Proof.
  induction 1 as [|r runs Hr _ IH]; intros bot; cbn [probes fold_left map].
  - now rewrite app_nil_r.
  - fold (probes serialize runs (processLogUpdates serialize (fst r) (snd r) bot)).
    rewrite IH, probe_pushes by exact Hr. now rewrite <- app_assoc.
Qed.

End TrackerFacts.

(** ** Timestamps: [toISOString] keeps the order of time *)

Section Timestamps.

Import JsDate.
Local Open Scope Z_scope.

Lemma checkUpTo_sound (P : Z -> bool) (n : N) :
  checkUpTo P n = true -> forall i, 0 <= i < Z.of_N n -> P i = true.
Proof.
  unfold checkUpTo.
  set (f := fun st : Z * bool => (fst st + 1, (snd st && P (fst st))%bool)).
  assert (H : forall k,
             fst (N.iter k f (0, true)) = Z.of_N k /\
             (snd (N.iter k f (0, true)) = true ->
              forall i, 0 <= i < Z.of_N k -> P i = true)).
  { induction k as [|k [Hf Hs]] using N.peano_ind.
    - cbn. split; [reflexivity | intros _ i Hi; lia].
    - rewrite N.iter_succ. unfold f at 1 3. cbn [fst snd]. split.
      + rewrite Hf. lia.
      + intros Hand. apply andb_true_iff in Hand as [H1 H2]. intros i Hi.
        destruct (Z.eq_dec i (Z.of_N k)) as [->|Hne].
        * rewrite <- Hf. exact H2.
        * apply Hs; [exact H1 | lia]. }
  intros Hc. apply (H n). exact Hc.
Qed.

Lemma ltb_app_same (p a b : Js.str) : Js.ltb (p ++ a) (p ++ b) = Js.ltb a b.
Proof.
  induction p as [|c p IH]; cbn; [reflexivity|].
  rewrite N.ltb_irrefl, N.eqb_refl. exact IH.
Qed.

Lemma ltb_app_lt (a : Js.str) :
  forall (b x y : Js.str),
    length a = length b -> Js.ltb a b = true -> Js.ltb (a ++ x) (b ++ y) = true.
Proof.
  induction a as [|c a IH]; intros [|c' b] x y Hl H; cbn in *; try discriminate.
  injection Hl as Hl.
  apply orb_true_iff in H as [H | H]; [now rewrite H|].
  apply andb_true_iff in H as [H1 H2].
  rewrite H1, (IH _ _ _ Hl H2). apply orb_true_r.
Qed.

Lemma ltb_trans (a : Js.str) :
  forall b c : Js.str, Js.ltb a b = true -> Js.ltb b c = true -> Js.ltb a c = true.
Proof.
  induction a as [|x a IH]; intros [|y b] [|z c] Hab Hbc; cbn in *;
    try discriminate; try reflexivity.
  apply orb_true_iff in Hab. apply orb_true_iff in Hbc. apply orb_true_iff.
  rewrite !andb_true_iff, !N.ltb_lt, !N.eqb_eq in *.
  destruct Hab as [Hab | [-> Hab]], Hbc as [Hbc | [-> Hbc]].
  - left. lia.
  - now left.
  - now left.
  - right. split; [reflexivity|]. now apply (IH b).
Qed.

(** A field: fixed width, then a separator, then the rest. *)
Lemma ltb_field (a b sep x y : Js.str) :
  length a = length b ->
  Js.ltb a b = true \/ (a = b /\ Js.ltb x y = true) ->
  Js.ltb (a ++ sep ++ x) (b ++ sep ++ y) = true.
Proof.
  intros Hl [H | [-> H]].
  - now apply ltb_app_lt.
  - now rewrite !ltb_app_same.
Qed.

(** Zero-padded decimals of one width compare as the numbers do. *)
Lemma pad_ordered (w : nat) (bound : N) :
  checkUpTo (fun a => Js.ltb (pad w a) (pad w (a + 1))
                      && Nat.eqb (length (pad w a)) w
                      && Nat.eqb (length (pad w (a + 1))) w)%bool bound = true ->
  forall a b, 0 <= a < b -> b <= Z.of_N bound ->
    Js.ltb (pad w a) (pad w b) = true /\ length (pad w a) = w /\ length (pad w b) = w.
Proof.
  intros Hc.
  assert (S1 : forall a, 0 <= a < Z.of_N bound ->
                 Js.ltb (pad w a) (pad w (a + 1)) = true /\
                 length (pad w a) = w /\ length (pad w (a + 1)) = w).
  { intros a Ha. pose proof (@checkUpTo_sound _ _ Hc a Ha) as H.
    rewrite !andb_true_iff, !Nat.eqb_eq in H. tauto. }
  assert (G : forall k : nat, forall a, 0 <= a -> a + 1 + Z.of_nat k <= Z.of_N bound ->
                Js.ltb (pad w a) (pad w (a + 1 + Z.of_nat k)) = true /\
                length (pad w a) = w /\ length (pad w (a + 1 + Z.of_nat k)) = w).
  { induction k as [|k IH]; intros a Ha Hb.
    - rewrite Z.add_0_r. apply S1. lia.
    - destruct (IH a Ha) as (L1 & L2 & L3); [lia|].
      destruct (S1 (a + 1 + Z.of_nat k)) as (M1 & M2 & M3); [lia|].
      replace (a + 1 + Z.of_nat (S k)) with (a + 1 + Z.of_nat k + 1) by lia.
      repeat split; [|exact L2 | exact M3].
      exact (ltb_trans _ _ _ L1 M1). }
  intros a b Hab Hb.
  replace b with (a + 1 + Z.of_nat (Z.to_nat (b - a - 1))) by lia.
  apply G; lia.
Qed.

Lemma pad4_ordered (a b : Z) :
  0 <= a < b -> b <= 9999 ->
  Js.ltb (pad 4 a) (pad 4 b) = true /\ length (pad 4 a) = 4%nat /\ length (pad 4 b) = 4%nat.
Proof. apply (pad_ordered 4 9999). vm_compute. reflexivity. Qed.

Lemma pad3_ordered (a b : Z) :
  0 <= a < b -> b <= 999 ->
  Js.ltb (pad 3 a) (pad 3 b) = true /\ length (pad 3 a) = 3%nat /\ length (pad 3 b) = 3%nat.
Proof. apply (pad_ordered 3 999). vm_compute. reflexivity. Qed.

Lemma pad2_ordered (a b : Z) :
  0 <= a < b -> b <= 99 ->
  Js.ltb (pad 2 a) (pad 2 b) = true /\ length (pad 2 a) = 2%nat /\ length (pad 2 b) = 2%nat.
Proof. apply (pad_ordered 2 99). vm_compute. reflexivity. Qed.

Lemma earlier_iff (y1 m1 d1 y2 m2 d2 : Z) :
  earlier (y1, m1, d1) (y2, m2, d2) = true <->
  y1 < y2 \/ (y1 = y2 /\ (m1 < m2 \/ (m1 = m2 /\ d1 < d2))).
Proof.
  unfold earlier.
  rewrite !orb_true_iff, !andb_true_iff, !orb_true_iff, !andb_true_iff,
    !Z.ltb_lt, !Z.eqb_eq.
  reflexivity.
Qed.

(** Later days of a cycle fall in later years of the cycle, or later in
    the same year. *)
Lemma yearDay_ordered (doe doe' : Z) :
  0 <= doe < doe' -> doe' < 146097 ->
  fst (yearDay doe) < fst (yearDay doe') \/
  (fst (yearDay doe) = fst (yearDay doe') /\ snd (yearDay doe) < snd (yearDay doe')).
Proof.
  intros H H'. unfold yearDay. cbn [fst snd].
  Z.div_mod_to_equations. lia.
Qed.

Lemma yearDay_bounds (doe : Z) :
  0 <= doe < 146097 ->
  0 <= fst (yearDay doe) <= 399 /\ 0 <= snd (yearDay doe) <= 365.
Proof.
  intros H. unfold yearDay. cbn [fst snd].
  Z.div_mod_to_equations. lia.
Qed.

Ltac split_tests :=
  repeat match goal with
         | |- context [Z.ltb ?a ?b] => destruct (Z.ltb_spec a b)
         | |- context [Z.leb ?a ?b] => destruct (Z.leb_spec a b)
         end.

Lemma monthDay_bounds (doy : Z) :
  0 <= doy <= 365 ->
  1 <= fst (monthDay doy) <= 12 /\ 1 <= snd (monthDay doy) <= 31.
Proof.
  intros H. unfold monthDay. cbn [fst snd]. split_tests;
    Z.div_mod_to_equations; lia.
Qed.

(** Later days of a year that starts in March come in later months, or
    later in the same month; March to December come before January and
    February. *)
Lemma monthDay_ordered (doy doy' : Z) :
  0 <= doy < doy' -> doy' <= 365 ->
  let turn := fun m => if Z.leb m 2 then 1 else 0 in
  let m := fst (monthDay doy) in
  let m' := fst (monthDay doy') in
  turn m < turn m' \/
  (turn m = turn m' /\
   (m < m' \/ (m = m' /\ snd (monthDay doy) < snd (monthDay doy')))).
Proof.
  intros H H'. unfold monthDay. cbn [fst snd]. cbv zeta. split_tests;
    Z.div_mod_to_equations; lia.
Qed.

Lemma civilInEra_fields (doe : Z) :
  civilInEra doe =
  (fst (yearDay doe) + (if Z.leb (fst (monthDay (snd (yearDay doe)))) 2 then 1 else 0),
   fst (monthDay (snd (yearDay doe))), snd (monthDay (snd (yearDay doe)))).
Proof.
  unfold civilInEra. destruct (yearDay doe) as [yoe doy]. cbn [fst snd].
  now destruct (monthDay doy).
Qed.

Lemma civilInEra_bounds (doe y m d : Z) :
  0 <= doe < 146097 ->
  civilInEra doe = (y, m, d) ->
  0 <= y <= 400 /\ 1 <= m <= 12 /\ 1 <= d <= 31 /\
  (y = 400 -> m <= 2) /\ (y = 0 -> 3 <= m).
Proof.
  intros H. rewrite civilInEra_fields. intros E.
  apply pair_equal_spec in E as [E <-]. apply pair_equal_spec in E as [<- <-].
  pose proof (yearDay_bounds H) as [Hy Hd].
  pose proof (monthDay_bounds Hd) as [Hm Hdd].
  split_tests; lia.
Qed.

Lemma civilInEra_ordered (doe doe' : Z) :
  0 <= doe < doe' -> doe' < 146097 ->
  earlier (civilInEra doe) (civilInEra doe') = true.
Proof.
  intros H H'. rewrite !civilInEra_fields. apply earlier_iff.
  assert (B : 0 <= doe < 146097) by lia.
  assert (B' : 0 <= doe' < 146097) by lia.
  pose proof (yearDay_bounds B) as [_ Hd].
  pose proof (yearDay_bounds B') as [_ Hd'].
  pose proof (monthDay_bounds Hd) as [Hm _].
  pose proof (monthDay_bounds Hd') as [Hm' _].
  destruct (yearDay_ordered H H') as [Hy | [Hy Hdoy]].
  - split_tests; lia.
  - assert (O : 0 <= snd (yearDay doe) < snd (yearDay doe')) by lia.
    pose proof (monthDay_ordered O (proj2 Hd')) as M. cbv zeta in M.
    rewrite Hy. revert M. split_tests; lia.
Qed.

(** The calendar day grows with the count of days. *)
Lemma civil_ordered (days days' : Z) :
  days < days' -> earlier (civil days) (civil days') = true.
Proof.
  intros H. unfold civil. cbv zeta.
  assert (B : 0 <= (days + 719468) mod 146097 < 146097)
    by (apply Z.mod_pos_bound; lia).
  assert (B' : 0 <= (days' + 719468) mod 146097 < 146097)
    by (apply Z.mod_pos_bound; lia).
  destruct (civilInEra ((days + 719468) mod 146097)) as [[y m] d] eqn:E.
  destruct (civilInEra ((days' + 719468) mod 146097)) as [[y' m'] d'] eqn:E'.
  pose proof (civilInEra_bounds B E) as (Hy & Hm & Hd & Hhi & Hlo).
  pose proof (civilInEra_bounds B' E') as (Hy' & Hm' & Hd' & Hhi' & Hlo').
  apply earlier_iff.
  destruct (Z.eq_dec ((days + 719468) / 146097) ((days' + 719468) / 146097))
    as [Eera | Nera].
  - assert (O : 0 <= (days + 719468) mod 146097 < (days' + 719468) mod 146097).
    { revert Eera. Z.div_mod_to_equations. lia. }
    pose proof (civilInEra_ordered O (proj2 B')) as L.
    rewrite E, E' in L. apply earlier_iff in L. rewrite Eera. lia.
  - assert (O : (days + 719468) / 146097 < (days' + 719468) / 146097).
    { revert Nera. Z.div_mod_to_equations. lia. }
    lia.
Qed.

Lemma civil_bounds (days y m d : Z) :
  civil days = (y, m, d) -> 1 <= m <= 12 /\ 1 <= d <= 31.
Proof.
  unfold civil. cbv zeta.
  assert (B : 0 <= (days + 719468) mod 146097 < 146097)
    by (apply Z.mod_pos_bound; lia).
  destruct (civilInEra ((days + 719468) mod 146097)) as [[y0 m0] d0] eqn:E.
  pose proof (civilInEra_bounds B E) as (_ & Hm & Hd & _).
  intros E'. apply pair_equal_spec in E' as [E' <-].
  apply pair_equal_spec in E' as [_ <-]. now split.
Qed.

Lemma fourDigitYear_civil (t y m d : Z) :
  fourDigitYear t -> civil (t / 86400000) = (y, m, d) -> 0 <= y <= 9999.
Proof.
  intros [Hlo Hhi] E.
  assert (D : -719528 <= t / 86400000 <= 2932896)
    by (Z.div_mod_to_equations; lia).
  split.
  - destruct (Z.eq_dec (t / 86400000) (-719528)) as [Eq | Ne].
    + rewrite Eq in E. change (civil (-719528)) with (0, 1, 1) in E.
      apply pair_equal_spec in E as [E _]. apply pair_equal_spec in E as [<- _]. lia.
    + assert (L : -719528 < t / 86400000) by lia.
      apply civil_ordered in L. rewrite E in L.
      change (civil (-719528)) with (0, 1, 1) in L.
      apply earlier_iff in L. lia.
  - destruct (Z.eq_dec (t / 86400000) 2932896) as [Eq | Ne].
    + rewrite Eq in E. change (civil 2932896) with (9999, 12, 31) in E.
      apply pair_equal_spec in E as [E _]. apply pair_equal_spec in E as [<- _]. lia.
    + assert (L : t / 86400000 < 2932896) by lia.
      apply civil_ordered in L. rewrite E in L.
      change (civil 2932896) with (9999, 12, 31) in L.
      apply earlier_iff in L. lia.
Qed.

Section Field.

(** A field of [w] digits that holds the numbers up to [top]. *)
Variable w : nat.
Variable top : Z.
Hypothesis top_pos : 0 < top.
Hypothesis ordered :
  forall a b, 0 <= a < b -> b <= top ->
    Js.ltb (pad w a) (pad w b) = true /\ length (pad w a) = w /\ length (pad w b) = w.

Lemma field_length (a : Z) : 0 <= a <= top -> length (pad w a) = w.
Proof.
  intros H. destruct (Z.eq_dec a top) as [-> | N].
  - destruct (@ordered 0 top) as (_ & _ & L); [lia | lia | exact L].
  - destruct (@ordered a top) as (_ & L & _); [lia | lia | exact L].
Qed.

Lemma field_then (a b : Z) (sep x y : Js.str) :
  0 <= a <= top -> 0 <= b <= top ->
  a < b \/ (a = b /\ Js.ltb x y = true) ->
  Js.ltb (pad w a ++ sep ++ x) (pad w b ++ sep ++ y) = true.
Proof.
  intros Ha Hb H. apply ltb_field.
  - now rewrite !field_length.
  - destruct H as [H | [-> H]]; [left; apply ordered; lia | now right].
Qed.

Lemma field_last (a b : Z) (sep : Js.str) :
  0 <= a < b -> b <= top ->
  Js.ltb (pad w a ++ sep) (pad w b ++ sep) = true.
Proof.
  intros Ha Hb. apply ltb_app_lt.
  - rewrite !field_length; [reflexivity | lia | lia].
  - apply ordered; lia.
Qed.

End Field.

(** In the years 0000 to 9999 the string has seven fields of fixed
    width. *)
Lemma toISOString_fields (t y m d : Z) :
  fourDigitYear t ->
  civil (t / 86400000) = (y, m, d) ->
  toISOString t =
    pad 4 y ++ Js.lit "-" ++ pad 2 m ++ Js.lit "-" ++ pad 2 d
    ++ Js.lit "T" ++ pad 2 (t mod 86400000 / 3600000)
    ++ Js.lit ":" ++ pad 2 ((t mod 86400000 / 60000) mod 60)
    ++ Js.lit ":" ++ pad 2 ((t mod 86400000 / 1000) mod 60)
    ++ Js.lit "." ++ pad 3 (t mod 86400000 mod 1000) ++ Js.lit "Z".
Proof.
  intros Ht E. pose proof (fourDigitYear_civil Ht E) as Hy.
  unfold toISOString. cbv zeta. rewrite E.
  destruct (Z.ltb_spec y 0); [lia|]. destruct (Z.ltb_spec 9999 y); [lia|].
  reflexivity.
Qed.

Lemma clock_ordered (r r' : Z) :
  0 <= r < r' -> r' < 86400000 ->
  let h := fun r => r / 3600000 in
  let mi := fun r => (r / 60000) mod 60 in
  let s := fun r => (r / 1000) mod 60 in
  let ms := fun r => r mod 1000 in
  (0 <= h r <= 99 /\ 0 <= mi r <= 99 /\ 0 <= s r <= 99 /\ 0 <= ms r <= 999) /\
  (0 <= h r' <= 99 /\ 0 <= mi r' <= 99 /\ 0 <= s r' <= 99 /\ 0 <= ms r' <= 999) /\
  (h r < h r' \/ (h r = h r' /\
    (mi r < mi r' \/ (mi r = mi r' /\
      (s r < s r' \/ (s r = s r' /\ ms r < ms r')))))).
Proof.
  intros H H'. cbv zeta beta. Z.div_mod_to_equations. lia.
Qed.

(** Compare one field: either it decides, or it is equal on both sides
    and the next one is looked at. *)
Ltac next_field P O L :=
  destruct L as [L | [-> L]];
  [ apply (field_then P O); [lia | lia | now left]
  | apply (field_then P O); [lia | lia | right; split; [reflexivity|]] ].

(** Between two instants of the years 0000 to 9999, the later one has the
    greater ISO string. *)
Lemma toISOString_increasing (t t' : Z) :
  fourDigitYear t -> fourDigitYear t' -> t < t' ->
  Js.ltb (toISOString t) (toISOString t') = true.
Proof.
  intros Ht Ht' Hlt.
  destruct (civil (t / 86400000)) as [[y m] d] eqn:E.
  destruct (civil (t' / 86400000)) as [[y' m'] d'] eqn:E'.
  rewrite (toISOString_fields Ht E), (toISOString_fields Ht' E').
  pose proof (fourDigitYear_civil Ht E) as Hy.
  pose proof (fourDigitYear_civil Ht' E') as Hy'.
  pose proof (civil_bounds E) as [Hm Hd].
  pose proof (civil_bounds E') as [Hm' Hd'].
  assert (R : 0 <= t mod 86400000 < 86400000) by (apply Z.mod_pos_bound; lia).
  assert (R' : 0 <= t' mod 86400000 < 86400000) by (apply Z.mod_pos_bound; lia).
  assert (P4 : 0 < 9999) by lia. assert (P2 : 0 < 99) by lia.
  destruct (Z.eq_dec (t / 86400000) (t' / 86400000)) as [Eday | Nday].
  - (* the same day: the time of day decides *)
    rewrite Eday, E' in E.
    apply pair_equal_spec in E as [E <-]. apply pair_equal_spec in E as [<- <-].
    assert (O : 0 <= t mod 86400000 < t' mod 86400000).
    { revert Eday. Z.div_mod_to_equations. lia. }
    pose proof (clock_ordered O (proj2 R')) as (B & B' & L). cbv zeta beta in B, B', L.
    apply (field_then P4 pad4_ordered); [lia | lia | right; split; [reflexivity|]].
    apply (field_then P2 pad2_ordered); [lia | lia | right; split; [reflexivity|]].
    apply (field_then P2 pad2_ordered); [lia | lia | right; split; [reflexivity|]].
    next_field P2 pad2_ordered L.
    next_field P2 pad2_ordered L.
    next_field P2 pad2_ordered L.
    apply (field_last (top := 999)); [lia | apply pad3_ordered | lia | lia].
  - (* an earlier day: the date decides *)
    assert (O : t / 86400000 < t' / 86400000).
    { revert Nday. Z.div_mod_to_equations. lia. }
    apply civil_ordered in O. rewrite E, E' in O. apply earlier_iff in O.
    next_field P4 pad4_ordered O.
    next_field P2 pad2_ordered O.
    apply (field_then P2 pad2_ordered); [lia | lia | now left].
Qed.

End Timestamps.

Lemma sorted_stamps (ts : list Z) :
  Forall JsDate.fourDigitYear ts ->
  StronglySorted Z.lt ts ->
  StronglySorted (fun a b => Js.ltb a b = true) (map JsDate.toISOString ts).
Proof.
  intros Hr Hs. induction Hs as [|t ts Hs IH Hall]; cbn; constructor.
  - apply IH. now inversion Hr.
  - inversion Hr as [|? ? Ht Hts]; subst.
    rewrite Forall_forall in *. intros s Hin.
    apply in_map_iff in Hin as (t' & <- & Hin).
    apply toISOString_increasing; auto.
Qed.



(* ================================================================== *)
(** * The properties at work on the sample pages *)

Lemma Forall_of_forallb {A : Type} (P : A -> Prop) (p : A -> bool) (l : list A) :
  (forall x, p x = true -> P x) -> forallb p l = true -> Forall P l.
Proof.
  intros H Hl. rewrite forallb_forall in Hl. rewrite Forall_forall.
  intros x Hx. apply H, Hl, Hx.
Qed.

Lemma parse_after : parseLegiData Sample.today Sample.after = Some Sample.snapshot.
Proof. vm_compute. reflexivity. Qed.

(** After an entry of one item, the page with two items raises the alert. *)
Lemma notify_iff_witness :
  observedLogs Sample.seen = [] ++ [Sample.entry] /\
  length (probedItems Sample.after) = length (versionItems Sample.entry) + 1 /\
  notify Sample.serialize Sample.after 1767776400000 Sample.seen = true.
Proof.
  split; [reflexivity|]. split; [reflexivity|].
  apply (proj2 (@notify_iff Sample.serialize Sample.after 1767776400000 Sample.seen)
           [] Sample.entry eq_refl).
  reflexivity.
Defined.

(** The blocks of the sample snapshot are short: its chunks are too. *)
Lemma formatEmbeds_bounded_witness :
  exists chunks,
    formatEmbeds Sample.clock Sample.validUrl Sample.snapshot = Some chunks /\
    Forall (fun m => length (modifContent m) <= MAX_DESC_LENGTH)
      (modifications Sample.snapshot) /\
    Forall (fun e => length (body e) <= MAX_DESC_LENGTH) chunks.
Proof.
  destruct (formatEmbeds Sample.clock Sample.validUrl Sample.snapshot)
    as [chunks|] eqn:E; [|vm_compute in E; discriminate].
  assert (H : Forall (fun m => length (modifContent m) <= MAX_DESC_LENGTH)
                (modifications Sample.snapshot)).
  { apply (Forall_of_forallb _
             (fun m => Nat.leb (length (modifContent m)) MAX_DESC_LENGTH)).
    - intros m Hm. apply Nat.leb_le. exact Hm.
    - vm_compute. reflexivity. }
  exists chunks. split; [reflexivity|]. split; [exact H|].
  exact (@formatEmbeds_bounded MAX_DESC_LENGTH Sample.clock Sample.validUrl
           Sample.snapshot chunks E H).
Defined.


(** The list item of the order has no section link. *)
Lemma section_of_item_without_link_witness :
  Extracted.sectionLinkOf Sample.orderItem = [] /\
  exists g,
    eachListItem [] Sample.orderItem = [] ++ [g] /\
    sectionName g = [] /\
    sectionUrl g = Js.lit "https://www.legifrance.gouv.fr/undefined" /\
    sectionUrl g <> [].
Proof.
  split; [reflexivity|].
  exact (@section_of_item_without_link [] Sample.orderItem eq_refl).
Defined.

(** A current version with no block inside: a snapshot, not [null]. *)
Lemma parseLegiData_null_iff_witness :
  Dom.occurs (Sample.page [Sample.current []])
    (Sel.versionToday (todayFormatted Sample.today)) /\
  Dom.occurs (Sample.page [Sample.current []]) Sel.currentVersion /\
  Extracted.blocksOf (Sample.page [Sample.current []]) = [] /\
  exists data,
    parseLegiData Sample.today (Sample.page [Sample.current []]) = Some data /\
    modifications data = [].
Proof.
  assert (M : Dom.occurs (Sample.page [Sample.current []])
                (Sel.versionToday (todayFormatted Sample.today)))
    by (apply occurs_iff; vm_compute; discriminate).
  assert (C : Dom.occurs (Sample.page [Sample.current []]) Sel.currentVersion)
    by (apply occurs_iff; vm_compute; discriminate).
  split; [exact M|]. split; [exact C|]. split; [reflexivity|].
  exact (proj2 (@parseLegiData_null_iff Sample.today (Sample.page [Sample.current []]))
           M C eq_refl).
Defined.

(** Two titled blocks out of three. *)
Lemma parseLegiData_modifications_witness :
  parseLegiData Sample.today Sample.after = Some Sample.snapshot /\
  (exists container,
     Dom.first (Dom.query Sample.after Sel.currentVersion) = [container] /\
     forall b, In b (Extracted.blocksOf Sample.after)
               <-> Dom.below container Sel.contentDetailTimeline b) /\
  length (Extracted.blocksOf Sample.after) = 3 /\
  modifications Sample.snapshot
  = map Extracted.modificationOf
      (filter Extracted.hasTitleLink (Extracted.blocksOf Sample.after)) /\
  length (modifications Sample.snapshot) = 2.
Proof.
  assert (H : parseLegiData Sample.today Sample.after = Some Sample.snapshot)
    by (vm_compute; reflexivity).
  split; [exact H|].
  destruct (@parseLegiData_modifications Sample.today Sample.after Sample.snapshot H)
    as (C & _ & M & _).
  split; [exact C|]. split; [reflexivity|]. split; [exact M | reflexivity].
Defined.

(** The group of articles 12 and 13. *)
Lemma article_groups_aligned_witness :
  parseLegiData Sample.today Sample.after = Some Sample.snapshot /\
  In Sample.decreeItem (modifications Sample.snapshot) /\
  In Sample.decreeGroup (articles Sample.decreeItem) /\
  length (articleNumbers Sample.decreeGroup) = length (articleUrls Sample.decreeGroup).
Proof.
  assert (H : parseLegiData Sample.today Sample.after = Some Sample.snapshot)
    by (vm_compute; reflexivity).
  assert (Hm : In Sample.decreeItem (modifications Sample.snapshot))
    by (left; reflexivity).
  assert (Hg : In Sample.decreeGroup (articles Sample.decreeItem))
    by (left; reflexivity).
  split; [exact H|]. split; [exact Hm|]. split; [exact Hg|].
  exact (proj1 (@article_groups_aligned Sample.today Sample.after Sample.snapshot
                  Sample.decreeItem Sample.decreeGroup H Hm Hg)).
Defined.


(** No panel for 2026: the probe is a no-op. *)
Lemma probe_without_items_witness :
  probedItems Sample.otherYear = [] /\
  processLogUpdates Sample.serialize Sample.otherYear 1767733200000 Sample.seen = Sample.seen.
Proof.
  split; [reflexivity|].
  exact (proj1 (@probe_without_items Sample.serialize Sample.otherYear 1767733200000
                  Sample.seen eq_refl)).
Defined.


(** ** The scenarios of the specification *)

(** The page of the 7th: two modifications, the first about articles 12
    and 13 of one section. *)
Example parse_scenario :
  option_map (fun d => (date d, length (modifications d),
                        map (fun m => (title m, map articleNumbers (articles m)))
                          (modifications d)))
    (parseLegiData Sample.today Sample.after)
  = Some (Js.lit "07/01/2026", 2,
          [(Js.lit "Decree X", [[Js.lit "12"; Js.lit "13"]]);
           (Js.lit "Order Y", [[Js.lit "7"]])]).
Proof. vm_compute. reflexivity. Qed.

(** With a bound of 50, two blocks of 40 make two chunks, the second one
    titled as a continuation. *)
Example pagination_scenario :
  option_map (map (fun e => (embedTitle e, length (body e))))
    (formatEmbedsWithin 50 Sample.clock Sample.validUrl Sample.twoBlocks)
  = Some [(calendar ++ Js.lit " 07/01/2026", 40);
          (calendar ++ Js.lit " 07/01/2026 (suite)", 40)].
Proof. vm_compute. reflexivity. Qed.

(** No alert on the first probe, one on the probe that sees a version
    more, none when nothing moved; three entries are logged. *)
Example tracker_scenario :
  let bot := probes Sample.serialize
               [(Sample.before, 1767733200000%Z); (Sample.after, 1767736800000%Z);
                (Sample.after, 1767740400000%Z)] freshBot in
  (length (sent bot), map (fun l => length (versionItems l)) (observedLogs bot),
   map log_date (observedLogs bot), length (saved bot))
  = (1, [1; 2; 2],
     [Js.lit "2026-01-06T21:00:00.000Z"; Js.lit "2026-01-06T22:00:00.000Z";
      Js.lit "2026-01-06T23:00:00.000Z"], 3).
Proof. vm_compute. reflexivity. Qed.

(* ================================================================== *)
(** * Beyond the claims *)

Unset Implicit Arguments.

(** ** The chunks of [formatEmbeds] *)

Section Chunks.

Variable maxLength : nat.
Variable clock : nat -> Z.
Variable validUrl : Js.str -> bool.
Variable data : ParsedData.

Lemma sealedFrom_length (groups : list (list ModificationItem)) (k : nat) :
  length (sealedFrom clock data k groups) = length groups.
Proof.
  revert k; induction groups as [|g groups IH]; intros k; cbn; [reflexivity|].
  now rewrite IH.
Qed.

Lemma sealedFrom_app (a b : list (list ModificationItem)) (k : nat) :
  sealedFrom clock data k (a ++ b)
  = sealedFrom clock data k a ++ sealedFrom clock data (k + length a) b.
Proof.
  revert k; induction a as [|g a IH]; intros k; cbn.
  - now rewrite Nat.add_0_r.
  - rewrite IH. now rewrite <- plus_n_Sm.
Qed.

Lemma sealedFrom_nth (groups : list (list ModificationItem)) :
  forall k i,
    nth_error (sealedFrom clock data k groups) i
    = option_map (fun g => withDescription (chunkEmbed clock data (k + i)) (render g))
        (nth_error groups i).
Proof.
  induction groups as [|g groups IH]; intros k [|i]; cbn; try reflexivity.
  - now rewrite Nat.add_0_r.
  - rewrite IH. now rewrite <- plus_n_Sm.
Qed.

(** One pass of the layout: a seal, or a block more in the description. *)
Lemma layout_one (st : Pagination) (g : list ModificationItem) (m : ModificationItem) :
  currentDescription st = render g ->
  currentEmbed st = chunkEmbed clock data (length (embeds st)) ->
  let st1 := layoutStep maxLength clock data st m in
  currentEmbed st1 = chunkEmbed clock data (length (embeds st1)) /\
  if Nat.ltb maxLength (length (render g ++ modifContent m))
  then embeds st1
       = embeds st ++ [withDescription (chunkEmbed clock data (length (embeds st))) (render g)]
       /\ currentDescription st1 = render [m]
  else embeds st1 = embeds st /\ currentDescription st1 = render (g ++ [m]).
Proof.
  intros Hd He. unfold layoutStep. rewrite Hd, He.
  destruct (Nat.ltb maxLength (length (render g ++ modifContent m)));
    cbn [embeds currentEmbed currentDescription].
  - split; [|split].
    + rewrite length_app. cbn. now rewrite Nat.add_1_r.
    + reflexivity.
    + cbn. now rewrite app_nil_r.
  - split; [reflexivity|]. split; [reflexivity|].
    unfold render. rewrite flat_map_app. cbn. now rewrite app_nil_r.
Qed.

(** The layout and the recursion cut the modifications alike. *)
Lemma layout_groupsFrom (mods : list ModificationItem) :
  forall (st : Pagination) (g : list ModificationItem),
    currentDescription st = render g ->
    currentEmbed st = chunkEmbed clock data (length (embeds st)) ->
    let st' := fold_left (layoutStep maxLength clock data) mods st in
    embeds st' = embeds st
                 ++ sealedFrom clock data (length (embeds st)) (fst (groupsFrom maxLength g mods)) /\
    currentDescription st' = render (snd (groupsFrom maxLength g mods)) /\
    currentEmbed st' = chunkEmbed clock data (length (embeds st')).
Proof.
  induction mods as [|m mods IH]; intros st g Hd He; cbn [fold_left groupsFrom].
  - cbn. rewrite app_nil_r. auto.
  - destruct (layout_one st g m Hd He) as [He1 H1].
    generalize dependent (layoutStep maxLength clock data st m). intros st1 He1 H1.
    destruct (Nat.ltb maxLength (length (render g ++ modifContent m))).
    + destruct H1 as [Ee Ed]. destruct (IH st1 [m] Ed He1) as (E1 & E2 & E3).
      destruct (groupsFrom maxLength [m] mods) as [later final]. cbn [fst snd] in *.
      split; [|split; [exact E2 | exact E3]].
      rewrite E1, Ee, <- app_assoc, length_app. cbn. now rewrite Nat.add_1_r.
    + destruct H1 as [Ee Ed]. destruct (IH st1 (g ++ [m]) Ed He1) as (E1 & E2 & E3).
      split; [|split; [exact E2 | exact E3]].
      now rewrite E1, Ee.
Qed.

(** The layout in one piece: the [k]-th chunk is the [k]-th builder
    with the blocks of the [k]-th group for description. *)
Lemma layout_chunkGroups :
  layout maxLength clock data
  = sealedFrom clock data 0 (chunkGroups maxLength (modifications data)).
Proof.
  unfold layout, layoutAll, chunkGroups.
  destruct (layout_groupsFrom (modifications data)
              {| embeds := []; currentEmbed := firstHeader clock data;
                 currentDescription := [] |} [] eq_refl eq_refl) as (E1 & E2 & E3).
  cbn [embeds app length] in E1.
  destruct (groupsFrom maxLength [] (modifications data)) as [later final].
  cbn [fst snd] in *. cbv zeta. rewrite E2, E3, E1.
  destruct final as [|m final]; [reflexivity|].
  assert (L : Nat.ltb 0 (length (render (m :: final))) = true).
  { apply Nat.ltb_lt. destruct (render (m :: final)) eqn:R; [|cbn; lia].
    apply flat_map_nonempty_nil in R. discriminate. }
  rewrite L, sealedFrom_app, sealedFrom_length. reflexivity.
Qed.

(** *** What the groups look like *)

Lemma groupsFrom_concat (mods : list ModificationItem) :
  forall g, concat (fst (groupsFrom maxLength g mods)) ++ snd (groupsFrom maxLength g mods)
            = g ++ mods.
Proof.
  induction mods as [|m mods IH]; intros g; cbn [groupsFrom].
  - cbn. now rewrite app_nil_r.
  - destruct (Nat.ltb maxLength _).
    + specialize (IH [m]). destruct (groupsFrom maxLength [m] mods) as [later final].
      cbn [fst snd concat] in *. now rewrite <- app_assoc, IH.
    + rewrite IH. now rewrite <- app_assoc.
Qed.

(** The first group, sealed or still in progress, starts with [g]. *)
Lemma groupsFrom_head (mods : list ModificationItem) :
  forall g, exists more,
    hd (snd (groupsFrom maxLength g mods)) (fst (groupsFrom maxLength g mods)) = g ++ more.
Proof.
  induction mods as [|m mods IH]; intros g; cbn [groupsFrom].
  - exists []. cbn. now rewrite app_nil_r.
  - destruct (Nat.ltb maxLength _).
    + destruct (groupsFrom maxLength [m] mods) as [later final]. cbn.
      exists []. now rewrite app_nil_r.
    + destruct (IH (g ++ [m])) as [more E]. exists ([m] ++ more).
      now rewrite E, <- app_assoc.
Qed.

(** After the first group, no group is empty. *)
Lemma groupsFrom_nonempty (mods : list ModificationItem) :
  forall g,
    Forall (fun x => x <> []) (tl (fst (groupsFrom maxLength g mods) ++ [snd (groupsFrom maxLength g mods)])) /\
    (g <> [] ->
     Forall (fun x => x <> []) (fst (groupsFrom maxLength g mods) ++ [snd (groupsFrom maxLength g mods)])).
Proof.
  induction mods as [|m mods IH]; intros g; cbn [groupsFrom].
  - cbn. split; [constructor|]. intros N. now repeat constructor.
  - destruct (Nat.ltb maxLength _).
    + destruct (IH [m]) as [_ H]. specialize (H ltac:(discriminate)).
      destruct (groupsFrom maxLength [m] mods) as [later final]. cbn [fst snd app tl] in *.
      split; [exact H|]. intros N. now constructor.
    + destruct (IH (g ++ [m])) as [H1 H2]. split; [exact H1|].
      intros _. apply H2. now destruct g.
Qed.

(** A group longer than the bound is one block. *)
Lemma groupsFrom_shape (mods : list ModificationItem) :
  forall g,
    (length (render g) <= maxLength \/ exists m, g = [m]) ->
    Forall (fun x => length (render x) <= maxLength \/ exists m, x = [m])
      (fst (groupsFrom maxLength g mods) ++ [snd (groupsFrom maxLength g mods)]).
Proof.
  induction mods as [|m mods IH]; intros g Hg; cbn [groupsFrom].
  - cbn. constructor; [exact Hg | constructor].
  - destruct (Nat.ltb maxLength (length (render g ++ modifContent m))) eqn:T.
    + specialize (IH [m] (or_intror (ex_intro _ m eq_refl))).
      destruct (groupsFrom maxLength [m] mods) as [later final]. cbn [fst snd app] in *.
      now constructor.
    + apply IH. left. apply Nat.ltb_ge in T.
      unfold render in *. rewrite flat_map_app. cbn. now rewrite app_nil_r.
Qed.

Lemma groupsFrom_tight (mods : list ModificationItem) :
  forall g,
    tight maxLength (fst (groupsFrom maxLength g mods) ++ [snd (groupsFrom maxLength g mods)])
    = true.
Proof.
  induction mods as [|m mods IH]; intros g; cbn [groupsFrom].
  - reflexivity.
  - destruct (Nat.ltb maxLength (length (render g ++ modifContent m))) eqn:T.
    + specialize (IH [m]). destruct (groupsFrom_head mods [m]) as [more H].
      destruct (groupsFrom maxLength [m] mods) as [later final]. cbn [fst snd app] in *.
      destruct later as [|h later]; cbn [hd app] in *; subst; cbn [tight app];
        rewrite T; cbn [andb]; exact IH.
    + apply IH.
Qed.

(** The same for the groups of the chunks returned. *)
Lemma chunkGroups_open (mods : list ModificationItem) :
  mods <> [] ->
  chunkGroups maxLength mods
  = fst (groupsFrom maxLength [] mods) ++ [snd (groupsFrom maxLength [] mods)].
Proof.
  intros N. unfold chunkGroups.
  pose proof (groupsFrom_concat mods []) as C.
  destruct (groupsFrom_nonempty mods []) as [T _].
  destruct (groupsFrom maxLength [] mods) as [later final]. cbn [fst snd] in *.
  destruct final as [|m final]; [|reflexivity].
  exfalso. rewrite app_nil_r in C. cbn in C.
  destruct later as [|h later]; [cbn in C; now subst|].
  cbn [app tl] in T. apply Forall_app in T as [_ T]. inversion T. congruence.
Qed.

Lemma render_nil_iff (g : list ModificationItem) : render g = [] <-> g = [].
Proof.
  split; [apply flat_map_nonempty_nil | now intros ->].
Qed.

Lemma sealedFrom_bodies (groups : list (list ModificationItem)) (k : nat) :
  map body (sealedFrom clock data k groups) = map render groups.
Proof.
  revert k; induction groups as [|g groups IH]; intros k; cbn; [reflexivity|].
  now rewrite IH.
Qed.

Lemma chunkGroups_concat (mods : list ModificationItem) :
  concat (chunkGroups maxLength mods) = mods.
Proof.
  destruct mods as [|m mods]; [reflexivity|].
  rewrite chunkGroups_open by discriminate.
  rewrite concat_app. cbn [concat]. rewrite app_nil_r.
  apply (groupsFrom_concat (m :: mods) []).
Qed.

Lemma layout_headers (k : nat) (e : EmbedBuilder) :
  nth_error (layout maxLength clock data) k = Some e ->
  embedTitle e = calendar ++ Js.lit " " ++ date data
                   ++ (if Nat.eqb k 0 then [] else Js.lit " (suite)") /\
  embedUrl e = dateUrl data /\
  embedColor e = EMBED_COLOR /\
  embedTimestamp e = clock k /\
  exists d, description e = Some d.
Proof.
  rewrite layout_chunkGroups, sealedFrom_nth.
  destruct (nth_error _ k) as [g|]; [|discriminate]. cbn. intros [= <-].
  destruct k as [|k]; cbn.
  - rewrite app_nil_r. repeat split. now exists (render g).
  - repeat split. now exists (render g).
Qed.

Lemma layout_nil_iff :
  layout maxLength clock data = [] <-> modifications data = [].
Proof.
  rewrite layout_chunkGroups. split.
  - intros E. destruct (modifications data) as [|m mods] eqn:M; [reflexivity|].
    apply (f_equal (@length _)) in E.
    rewrite sealedFrom_length, chunkGroups_open, length_app in E by discriminate.
    cbn in E. lia.
  - intros ->. reflexivity.
Qed.

Lemma layout_long_chunk :
  Forall (fun e => length (body e) <= maxLength \/
                   exists m, In m (modifications data) /\ body e = modifContent m)
    (layout maxLength clock data).
Proof.
  rewrite layout_chunkGroups.
  destruct (modifications data) as [|m0 mods] eqn:M; [constructor|].
  pose proof (chunkGroups_concat (m0 :: mods)) as C.
  rewrite chunkGroups_open in * by discriminate.
  pose proof (groupsFrom_shape (m0 :: mods) [] (or_introl (Nat.le_0_l _))) as S.
  set (groups := fst (groupsFrom maxLength [] (m0 :: mods))
                 ++ [snd (groupsFrom maxLength [] (m0 :: mods))]) in *.
  rewrite Forall_forall in *. intros e He.
  apply In_nth_error in He as [k Hk]. rewrite sealedFrom_nth in Hk.
  destruct (nth_error groups k) as [g|] eqn:G; [|discriminate].
  cbn in Hk. injection Hk as <-. cbn.
  destruct (S g (nth_error_In _ _ G)) as [L | [m ->]]; [now left|].
  right. exists m. split.
  - change (In m (m0 :: mods)). rewrite <- C. apply in_concat. exists [m]. split; [|now left].
    eapply nth_error_In. exact G.
  - cbn. now rewrite app_nil_r.
Qed.

Lemma tight_nth (groups : list (list ModificationItem)) :
  tight maxLength groups = true ->
  forall i a b,
    nth_error groups i = Some a -> nth_error groups (S i) = Some b ->
    exists m rest, b = m :: rest /\ maxLength < length (render a ++ modifContent m).
Proof.
  induction groups as [|x groups IH]; intros T i a b Ha Hb; [now destruct i|].
  cbn [tight] in T. destruct groups as [|y groups]; [now destruct i|].
  destruct y as [|m y]; [discriminate|]. apply andb_true_iff in T as [T1 T2].
  destruct i as [|i].
  - cbn in Ha, Hb. injection Ha as <-. injection Hb as <-.
    exists m, y. split; [reflexivity|]. now apply Nat.ltb_lt.
  - apply (IH T2 i a b); assumption.
Qed.

Lemma layout_greedy :
  exists groups : list (list ModificationItem),
    concat groups = modifications data /\
    map body (layout maxLength clock data) = map render groups /\
    forall i a b,
      nth_error groups i = Some a -> nth_error groups (S i) = Some b ->
      exists m rest, b = m :: rest /\
                     maxLength < length (render a) + length (modifContent m).
Proof.
  exists (chunkGroups maxLength (modifications data)).
  rewrite layout_chunkGroups, sealedFrom_bodies.
  split; [apply chunkGroups_concat|]. split; [reflexivity|].
  intros i a b Ha Hb.
  destruct (modifications data) as [|m0 mods]; [now destruct i|].
  rewrite chunkGroups_open in * by discriminate.
  destruct (tight_nth _ (groupsFrom_tight (m0 :: mods) []) i a b Ha Hb)
    as (m & rest & E & L).
  exists m, rest. split; [exact E|]. now rewrite length_app in L.
Qed.

Lemma concat_length_nonempty {A : Type} (l : list (list A)) :
  Forall (fun x => x <> []) l -> length l <= length (concat l).
Proof.
  induction 1 as [|x l Hx _ IH]; cbn; [lia|].
  rewrite length_app. destruct x; [contradiction|]. cbn. lia.
Qed.


(** *** When [formatEmbeds] returns *)

Lemma headerOk_next (k : nat) :
  headerOk validUrl (nextHeader clock data k) = headerOk validUrl (nextHeader clock data 1).
Proof. reflexivity. Qed.

(** One pass of the loop: the pass of the layout, unless the seal or the
    next builder throws. *)
Lemma paginate_cases (st : Pagination) (m : ModificationItem) :
  paginate maxLength clock validUrl data st m
  = if Nat.ltb maxLength (length (currentDescription st ++ modifContent m))
    then if descriptionOk (currentDescription st)
            && headerOk validUrl (nextHeader clock data 1)
         then Some (layoutStep maxLength clock data st m)
         else None
    else Some (layoutStep maxLength clock data st m).
Proof.
  unfold paginate, layoutStep, setDescription, nextEmbed, build. cbv zeta.
  destruct (Nat.ltb maxLength _); [|reflexivity].
  destruct (descriptionOk (currentDescription st)); [|reflexivity].
  rewrite headerOk_next.
  destruct (headerOk validUrl (nextHeader clock data 1)); reflexivity.
Qed.

Lemma layoutStep_description (st : Pagination) (g : list ModificationItem)
    (m : ModificationItem) :
  currentDescription st = render g ->
  currentDescription (layoutStep maxLength clock data st m)
  = if Nat.ltb maxLength (length (render g ++ modifContent m))
    then render [m] else render (g ++ [m]).
Proof.
  intros Hd. unfold layoutStep. cbv zeta. rewrite Hd.
  destruct (Nat.ltb maxLength _); cbn [currentDescription]; rewrite ?Hd.
  - cbn. now rewrite app_nil_r.
  - unfold render. rewrite flat_map_app. cbn. now rewrite app_nil_r.
Qed.

(** The loop runs to its end exactly when the builder takes every group
    it seals on the way and, if it seals any, the header of a
    continuation. *)
Lemma continue_cases (mods : list ModificationItem) :
  forall (st : Pagination) (g : list ModificationItem),
    currentDescription st = render g ->
    fold_left (continue maxLength clock validUrl data) mods (Some st)
    = if forallb (fun x => descriptionOk (render x)) (fst (groupsFrom maxLength g mods))
         && (match fst (groupsFrom maxLength g mods) with
             | [] => true
             | _ :: _ => headerOk validUrl (nextHeader clock data 1)
             end)
      then Some (fold_left (layoutStep maxLength clock data) mods st)
      else None.
Proof.
  induction mods as [|m mods IH]; intros st g Hd; [reflexivity|].
  cbn [fold_left continue groupsFrom]. rewrite paginate_cases, Hd.
  pose proof (layoutStep_description st g m Hd) as D.
  destruct (Nat.ltb maxLength (length (render g ++ modifContent m))).
  - specialize (IH _ [m] D).
    destruct (groupsFrom maxLength [m] mods) as [later final]. cbn [fst snd] in *.
    cbn [forallb].
    destruct (descriptionOk (render g)); cbn [andb]; [|now rewrite continue_None].
    destruct (headerOk validUrl (nextHeader clock data 1)) eqn:H; cbn [andb].
    + rewrite IH. rewrite andb_true_r.
      destruct later; [reflexivity|]. now rewrite andb_true_r.
    + rewrite continue_None. now rewrite andb_false_r.
  - exact (IH _ (g ++ [m]) D).
Qed.

Lemma layoutAll_description :
  currentDescription (layoutAll maxLength clock data)
  = render (snd (groupsFrom maxLength [] (modifications data))).
Proof.
  unfold layoutAll.
  apply (layout_groupsFrom (modifications data)
           {| embeds := []; currentEmbed := firstHeader clock data;
              currentDescription := [] |} [] eq_refl eq_refl).
Qed.

Lemma chunkGroups_cases (mods : list ModificationItem) :
  (mods = [] /\ chunkGroups maxLength mods = []
   /\ groupsFrom maxLength [] mods = ([], [])) \/
  (mods <> [] /\ snd (groupsFrom maxLength [] mods) <> [] /\
   chunkGroups maxLength mods
   = fst (groupsFrom maxLength [] mods) ++ [snd (groupsFrom maxLength [] mods)]).
Proof.
  destruct mods as [|m mods]; [left; now repeat split | right].
  split; [discriminate|].
  pose proof (chunkGroups_open (m :: mods) ltac:(discriminate)) as O.
  split; [|exact O].
  destruct (groupsFrom_nonempty (m :: mods) []) as [T _].
  pose proof (groupsFrom_concat (m :: mods) []) as C.
  destruct (groupsFrom maxLength [] (m :: mods)) as [later final]. cbn [fst snd] in *.
  intros ->. rewrite app_nil_r in C. cbn [app] in C.
  destruct later as [|h later]; [discriminate|].
  cbn [app tl] in T. apply Forall_app in T as [_ T]. inversion T. congruence.
Qed.

Lemma formatEmbeds_cases :
  formatEmbedsWithin maxLength clock validUrl data
  = if headerOk validUrl (firstHeader clock data)
       && forallb (fun x => descriptionOk (render x))
            (chunkGroups maxLength (modifications data))
       && (Nat.leb (length (chunkGroups maxLength (modifications data))) 1
           || headerOk validUrl (nextHeader clock data 1))
    then Some (layout maxLength clock data)
    else None.
Proof.
  unfold formatEmbedsWithin, paginateAll, firstEmbed, build.
  destruct (headerOk validUrl (firstHeader clock data)); [|reflexivity].
  cbn [andb].
  rewrite (continue_cases (modifications data)
             {| embeds := []; currentEmbed := firstHeader clock data;
                currentDescription := [] |} [] eq_refl).
  fold (layoutAll maxLength clock data). unfold layout. cbv zeta.
  pose proof layoutAll_description as D.
  set (st := layoutAll maxLength clock data) in *.
  destruct (chunkGroups_cases (modifications data)) as [(E & C & G) | (N & F & C)];
    rewrite C.
  - rewrite G in *. cbn [fst snd forallb andb length Nat.leb orb] in *.
    rewrite D. reflexivity.
  - destruct (groupsFrom maxLength [] (modifications data)) as [later final].
    cbn [fst snd] in *. rewrite forallb_app, length_app. cbn [forallb length].
    rewrite andb_true_r.
    assert (L : Nat.ltb 0 (length (render final)) = true).
    { apply Nat.ltb_lt. destruct (render final) eqn:R; [|cbn; lia].
      apply render_nil_iff in R. contradiction. }
    destruct (forallb _ later); cbn [andb]; [|reflexivity].
    destruct later as [|h later]; cbn [length Nat.add Nat.leb orb andb].
    + rewrite andb_true_r, D, L. unfold setDescription.
      destruct (descriptionOk (render final)); reflexivity.
    + replace (Nat.leb (length later + 1) 0) with false
        by (symmetry; apply Nat.leb_gt; lia).
      cbn [orb].
      destruct (headerOk validUrl (nextHeader clock data 1)); cbn [andb];
        [|now rewrite andb_false_r].
      rewrite andb_true_r, D, L. unfold setDescription.
      destruct (descriptionOk (render final)); reflexivity.
Qed.

Lemma formatEmbeds_groups (chunks : list EmbedBuilder) :
  formatEmbedsWithin maxLength clock validUrl data = Some chunks ->
  chunks = sealedFrom clock data 0 (chunkGroups maxLength (modifications data)) /\
  Forall (fun g => g <> []) (chunkGroups maxLength (modifications data)).
Proof.
  intros H. pose proof (@formatEmbeds_checked maxLength clock validUrl data chunks H) as K.
  apply formatEmbeds_layout in H. subst chunks. rewrite layout_chunkGroups in *.
  split; [reflexivity|].
  apply (proj2 (Forall_map body (fun d => descriptionOk d = true) _)) in K.
  rewrite sealedFrom_bodies in K.
  apply (proj1 (Forall_map render (fun d => descriptionOk d = true) _)) in K.
  eapply Forall_impl; [|exact K].
  intros g Hg ->. discriminate.
Qed.

(** X1.  The [k]-th chunk that [formatEmbeds] returns carries the date of
    the snapshot for title, followed by " (suite)" from the second chunk
    on, the link of the date, the colour of the bot and the [k]-th reading
    of the clock; its description is set. *)
Theorem chunk_headers (chunks : list EmbedBuilder) (k : nat) (e : EmbedBuilder) :
  formatEmbedsWithin maxLength clock validUrl data = Some chunks ->
  nth_error chunks k = Some e ->
  embedTitle e = calendar ++ Js.lit " " ++ date data
                   ++ (if Nat.eqb k 0 then [] else Js.lit " (suite)") /\
  embedUrl e = dateUrl data /\
  embedColor e = EMBED_COLOR /\
  embedTimestamp e = clock k /\
  exists d, description e = Some d.
Proof.
  intros H. apply formatEmbeds_layout in H. subst chunks. apply layout_headers.
Qed.

(** X2.  When [formatEmbeds] returns, it returns no chunk exactly when
    the snapshot has no modification. *)
Theorem no_chunk_iff (chunks : list EmbedBuilder) :
  formatEmbedsWithin maxLength clock validUrl data = Some chunks ->
  (chunks = [] <-> modifications data = []).
Proof.
  intros H. apply formatEmbeds_layout in H. subst chunks. apply layout_nil_iff.
Qed.

(** X3.  [formatEmbeds] returns, rather than throws, exactly when the
    builder takes everything the loop gives it: the title and the link of
    the date; for description the blocks of every group of the greedy cut,
    each between 1 and 4096 code units, which rules out a first block that
    alone goes over the bound; and, when there is more than one chunk, the
    title of a continuation. *)
Theorem formatEmbeds_returns_iff :
  (exists chunks, formatEmbedsWithin maxLength clock validUrl data = Some chunks) <->
  headerOk validUrl (firstHeader clock data) = true /\
  Forall (fun g => descriptionOk (render g) = true)
    (chunkGroups maxLength (modifications data)) /\
  (2 <= length (chunkGroups maxLength (modifications data)) ->
   headerOk validUrl (nextHeader clock data 1) = true).
Proof.
  rewrite formatEmbeds_cases.
  destruct (headerOk validUrl (firstHeader clock data)); cbn [andb].
  2:{ split; [intros [c H]; discriminate | intros [H _]; discriminate]. }
  destruct (forallb _ _) eqn:F; cbn [andb].
  2:{ split; [intros [c H]; discriminate|]. intros (_ & G & _).
      rewrite Forall_forall in G.
      assert (T : forallb (fun x => descriptionOk (render x))
                    (chunkGroups maxLength (modifications data)) = true)
        by (apply forallb_forall; intros x Hx; now apply G).
      rewrite T in F. discriminate. }
  assert (G : Forall (fun g => descriptionOk (render g) = true)
                (chunkGroups maxLength (modifications data))).
  { rewrite Forall_forall. intros x Hx.
    rewrite forallb_forall in F. now apply F. }
  destruct (Nat.leb _ 1) eqn:L; cbn [orb].
  - apply Nat.leb_le in L. split; [|intros _; eexists; reflexivity].
    intros _. split; [reflexivity|]. split; [exact G|]. lia.
  - apply Nat.leb_gt in L.
    destruct (headerOk validUrl (nextHeader clock data 1)).
    + split; [|intros _; eexists; reflexivity]. now intros _.
    + split; [intros [c H]; discriminate|]. intros (_ & _ & H).
      specialize (H ltac:(lia)). discriminate.
Qed.

(** X4.  A chunk returned whose description is longer than the bound
    holds the block of one modification and nothing else. *)
Theorem long_chunk_is_one_block (chunks : list EmbedBuilder) :
  formatEmbedsWithin maxLength clock validUrl data = Some chunks ->
  Forall (fun e => length (body e) <= maxLength \/
                   exists m, In m (modifications data) /\ body e = modifContent m)
    chunks.
Proof.
  intros H. apply formatEmbeds_layout in H. subst chunks. apply layout_long_chunk.
Qed.

(** X5.  The cut is greedy: the chunks returned are the blocks of
    consecutive groups of the modifications, and no group could have
    taken the first block of the next one without going over the
    bound. *)
Theorem no_needless_cut (chunks : list EmbedBuilder) :
  formatEmbedsWithin maxLength clock validUrl data = Some chunks ->
  exists groups : list (list ModificationItem),
    concat groups = modifications data /\
    map body chunks = map render groups /\
    forall i a b,
      nth_error groups i = Some a -> nth_error groups (S i) = Some b ->
      exists m rest, b = m :: rest /\
                     maxLength < length (render a) + length (modifContent m).
Proof.
  intros H. apply formatEmbeds_layout in H. subst chunks. apply layout_greedy.
Qed.

(** X6.  [formatEmbeds] never returns more chunks than there are
    modifications: a call that would seal an empty first chunk throws. *)
Theorem chunk_count (chunks : list EmbedBuilder) :
  formatEmbedsWithin maxLength clock validUrl data = Some chunks ->
  length chunks <= length (modifications data).
Proof.
  intros H. destruct (formatEmbeds_groups chunks H) as [-> F].
  rewrite sealedFrom_length.
  rewrite <- (chunkGroups_concat (modifications data)) at 2.
  apply concat_length_nonempty, F.
Qed.

End Chunks.

(** ** The daily report: [processLegiUpdates] *)

Section Daily.

Import Extracted.

Variable today : JsDate.Local.
Variable clock : nat -> Z.
Variable validUrl : Js.str -> bool.
Variable OWNER_ID : option Js.str.

(** The message that carries the chunk of index [k]. *)
Lemma sendEach_accepted (accepts : nat -> bool) (embeds : list EmbedBuilder) :
  forall i,
    (forall k, k < length embeds -> accepts (i + k) = true) ->
    snd (sendEach OWNER_ID accepts i embeds) = true /\
    length (fst (sendEach OWNER_ID accepts i embeds)) = length embeds /\
    forall k e,
      nth_error embeds k = Some e ->
      nth_error (fst (sendEach OWNER_ID accepts i embeds)) k
      = Some (Rich (if isSet OWNER_ID && Nat.eqb (i + k) 0
                    then Some (mention OWNER_ID) else None) [e]).
Proof.
  induction embeds as [|e0 embeds IH]; intros i Hacc; cbn [sendEach].
  - cbn. repeat split. intros [|k] e; discriminate.
  - assert (A0 : accepts i = true)
      by (rewrite <- (Nat.add_0_r i); apply Hacc; cbn; lia).
    rewrite A0. destruct (IH (S i)) as (D & L & N).
    { intros k Hk. replace (S i + k) with (i + S k) by lia. apply Hacc. cbn. lia. }
    destruct (sendEach OWNER_ID accepts (S i) embeds) as [later done].
    cbn [fst snd length] in *. split; [exact D|]. split; [now f_equal|].
    intros [|k] e Hk; cbn in Hk |- *.
    + injection Hk as <-. now rewrite Nat.add_0_r.
    + rewrite (N k e Hk). now replace (S i + k) with (i + S k) by lia.
Qed.

(** A rejected [send] is the last one. *)
Lemma sendEach_rejected (accepts : nat -> bool) (embeds : list EmbedBuilder) :
  forall i k,
    k < length embeds ->
    (forall j, j < k -> accepts (i + j) = true) ->
    accepts (i + k) = false ->
    snd (sendEach OWNER_ID accepts i embeds) = false /\
    length (fst (sendEach OWNER_ID accepts i embeds)) = S k.
Proof.
  induction embeds as [|e0 embeds IH]; intros i k Hk Hacc Hrej; cbn [sendEach].
  - cbn in Hk. lia.
  - destruct k as [|k].
    + rewrite Nat.add_0_r in Hrej. rewrite Hrej. now cbn.
    + assert (A0 : accepts i = true)
        by (rewrite <- (Nat.add_0_r i); apply Hacc; lia).
      rewrite A0. destruct (IH (S i) k) as [D L].
      * cbn in Hk. lia.
      * intros j Hj. replace (S i + j) with (i + S j) by lia. apply Hacc. lia.
      * now replace (S i + k) with (i + S k) by lia.
      * destruct (sendEach OWNER_ID accepts (S i) embeds) as [later done].
        cbn [fst snd length] in *. now rewrite L.
Qed.

(** X7.  When the page shows no version dated today, or no current
    version, exactly one message is handed to the channel: the plain
    notice that nothing changed, with no embed. *)
Theorem daily_notice (accepts : nat -> bool) (doc : Dom.Document) :
  ~ Dom.occurs doc (Sel.versionToday (todayFormatted today)) \/
  ~ Dom.occurs doc Sel.currentVersion ->
  fst (processLegiUpdates today clock validUrl OWNER_ID accepts doc) = [Plain noChange].
Proof.
  intros H. unfold processLegiUpdates. rewrite parseLegiData_unfold.
  rewrite !occurs_iff in H.
  destruct (Dom.query doc (Sel.versionToday _)) as [|v vs]; [reflexivity|].
  destruct (Dom.query doc Sel.currentVersion) as [|c cs]; [reflexivity|].
  destruct H as [H | H]; exfalso; apply H; discriminate.
Qed.

(** X8.  When a snapshot is parsed and the channel takes every message:
    if [formatEmbeds] returns, one message goes out per chunk, in the
    order of the chunks, each with that chunk for only embed, and the
    owner is mentioned in the first message alone, and only when
    [OWNER_ID] is set to a non-empty string; if [formatEmbeds] throws,
    nothing is handed to the channel and the call fails. *)
Theorem daily_messages (accepts : nat -> bool) (doc : Dom.Document) (data : ParsedData) :
  parseLegiData today doc = Some data ->
  (forall i, accepts i = true) ->
  match formatEmbeds clock validUrl data with
  | Some embeds =>
      let handed := fst (processLegiUpdates today clock validUrl OWNER_ID accepts doc) in
      snd (processLegiUpdates today clock validUrl OWNER_ID accepts doc) = true /\
      length handed = length embeds /\
      forall k e,
        nth_error embeds k = Some e ->
        nth_error handed k
        = Some (Rich (if isSet OWNER_ID && Nat.eqb k 0
                      then Some (mention OWNER_ID) else None) [e])
  | None => processLegiUpdates today clock validUrl OWNER_ID accepts doc = ([], false)
  end.
Proof.
  intros P A. unfold processLegiUpdates. rewrite P.
  destruct (formatEmbeds clock validUrl data) as [embeds|]; [|reflexivity].
  cbv zeta. apply (sendEach_accepted accepts embeds 0). intros k _. apply A.
Qed.

(** X9.  When no block of the current version has a title link, nothing
    at all is handed to the channel: no embed, and no notice either.  The
    snapshot has no modification, and the call completes exactly when the
    builder takes the title and the link of the date. *)
Theorem daily_silence (accepts : nat -> bool) (doc : Dom.Document)
    (container : Dom.Path * Dom.Node) :
  Dom.occurs doc (Sel.versionToday (todayFormatted today)) ->
  Dom.first (Dom.query doc Sel.currentVersion) = [container] ->
  (forall b a, Dom.below container Sel.contentDetailTimeline b ->
               ~ Dom.below b Sel.titleLink a) ->
  exists data,
    parseLegiData today doc = Some data /\
    modifications data = [] /\
    processLegiUpdates today clock validUrl OWNER_ID accepts doc
    = ([], headerOk validUrl (firstHeader clock data)).
Proof.
  rewrite occurs_iff. intros M C B.
  assert (F : filter hasTitleLink (blocksOf doc) = []).
  { destruct (filter hasTitleLink (blocksOf doc)) as [|b l] eqn:E; [reflexivity|].
    assert (I : In b (filter hasTitleLink (blocksOf doc))) by (rewrite E; now left).
    apply filter_In in I as [I T].
    apply (@blocksOf_iff doc container b C) in I.
    apply hasTitleLink_iff in T as [a T]. now destruct (B b a I). }
  unfold processLegiUpdates. rewrite parseLegiData_unfold.
  destruct (Dom.query doc (Sel.versionToday _)) as [|v vs]; [contradiction|].
  rewrite C. cbv zeta. rewrite F. cbn [map].
  eexists. split; [reflexivity|]. split; [reflexivity|].
  unfold formatEmbeds, formatEmbedsWithin, paginateAll, firstEmbed, build.
  cbn [modifications fold_left].
  destruct (headerOk validUrl _); reflexivity.
Qed.

(** X10.  The chunks that [formatEmbeds] returns go out one after the
    other: when the channel rejects the message of chunk [k], that message
    is the last one handed over, and the chunks after it are never
    sent. *)
Theorem daily_stops_at_rejection (accepts : nat -> bool) (doc : Dom.Document)
    (data : ParsedData) (embeds : list EmbedBuilder) (k : nat) :
  parseLegiData today doc = Some data ->
  formatEmbeds clock validUrl data = Some embeds ->
  k < length embeds ->
  (forall j, j < k -> accepts j = true) ->
  accepts k = false ->
  snd (processLegiUpdates today clock validUrl OWNER_ID accepts doc) = false /\
  length (fst (processLegiUpdates today clock validUrl OWNER_ID accepts doc)) = S k.
Proof.
  intros P F Hk A R. unfold processLegiUpdates. rewrite P, F.
  apply (sendEach_rejected accepts embeds 0 k Hk); assumption.
Qed.

End Daily.

(** ** The log of the hourly probes *)

Section Log.

Variable serialize : list Dom.Node -> Js.str.

(** The entry a probe of [doc] at [now] pushes. *)
Lemma probe_cases (doc : Dom.Document) (now : Z) (bot : Bot) :
  (itemCount doc = 0 /\ processLogUpdates serialize doc now bot = bot) \/
  (itemCount doc <> 0 /\
   processLogUpdates serialize doc now bot
   = let logs := observedLogs bot ++
                 [{| log_date := JsDate.toISOString now;
                     versionItems := map (formatVersionItem serialize) (probedItems doc) |}] in
     {| observedLogs := logs;
        sent := sent bot ++
                (if newVersion (observedLogs bot)
                      (map (formatVersionItem serialize) (probedItems doc))
                 then [alert] else []);
        saved := saved bot ++ [logs] |}).
Proof.
  unfold processLogUpdates, itemCount.
  destruct (probedItems doc) as [|x xs]; [left; now split|].
  right. split; [discriminate|]. cbn [length Nat.eqb]. cbv zeta.
  destruct (newVersion _ _); [reflexivity|]. now rewrite app_nil_r.
Qed.

Lemma newVersion_lastCount (logs : list LegiLog) (items : list VersionItem) :
  newVersion logs items
  = match lastCount logs with
    | Some p => Nat.ltb p (length items)
    | None => false
    end.
Proof.
  unfold newVersion, lastCount.
  induction logs as [|l older _] using rev_ind; [reflexivity|].
  rewrite lastLog_snoc, length_app. cbn [length option_map].
  replace (Nat.ltb 0 (length older + 1)) with true by (symmetry; apply Nat.ltb_lt; lia).
  reflexivity.
Qed.

Lemma lastCount_snoc (older : list LegiLog) (l : LegiLog) :
  lastCount (older ++ [l]) = Some (length (versionItems l)).
Proof. unfold lastCount. now rewrite lastLog_snoc. Qed.

(** X11.  The log only grows: whatever the pages, a run of probes leaves
    the entries it found where they were and adds one entry for each probe
    that found version items, in order, and none for the others; no entry
    added is empty of version items. *)
Theorem log_append_only (runs : list (Dom.Document * Z)) (bot : Bot) :
  observedLogs (probes serialize runs bot) = observedLogs bot ++ map (logged serialize) (found runs) /\
  Forall (fun l => versionItems l <> []) (map (logged serialize) (found runs)).
Proof.
  split.
  - revert bot. induction runs as [|r runs IH]; intros bot; cbn [probes fold_left].
    + cbn. now rewrite app_nil_r.
    + fold (probes serialize runs (processLogUpdates serialize (fst r) (snd r) bot)).
      rewrite IH. unfold found. cbn [filter].
      destruct (probe_cases (fst r) (snd r) bot) as [[Z0 ->] | [NZ ->]].
      * rewrite Z0. reflexivity.
      * apply Nat.eqb_neq in NZ. rewrite NZ. cbn. now rewrite <- app_assoc.
  - rewrite Forall_forall. intros l Hl. apply in_map_iff in Hl as (r & <- & Hr).
    apply filter_In in Hr as [_ Hr]. cbn. unfold itemCount in Hr.
    destruct (probedItems (fst r)); [discriminate|]. discriminate.
Qed.

(** X12.  The alerts of a run are as many as the times the number of
    version items went strictly up from one logged probe to the next,
    starting from the last entry of the log; the probes that found nothing
    do not count, and with an empty log the first probe raises none.
    Nothing but the alert is ever sent. *)
Theorem alerts_count_ascents (runs : list (Dom.Document * Z)) (bot : Bot) :
  sent (probes serialize runs bot)
  = sent bot ++
    repeat alert
      (ascents (lastCount (observedLogs bot))
         (filter (fun c => negb (Nat.eqb c 0)) (map (fun r => itemCount (fst r)) runs))).
Proof.
  revert bot. induction runs as [|r runs IH]; intros bot; cbn [probes fold_left].
  - cbn. now rewrite app_nil_r.
  - fold (probes serialize runs (processLogUpdates serialize (fst r) (snd r) bot)).
    rewrite IH. cbn [map filter].
    destruct (probe_cases (fst r) (snd r) bot) as [[Z0 ->] | [NZ ->]].
    + rewrite Z0. reflexivity.
    + apply Nat.eqb_neq in NZ. rewrite NZ. cbn [negb ascents sent observedLogs].
      cbv zeta. cbn [observedLogs sent]. rewrite lastCount_snoc, newVersion_lastCount.
      cbn [versionItems]. rewrite length_map. fold (itemCount (fst r)).
      rewrite <- app_assoc. f_equal.
      destruct (lastCount (observedLogs bot)) as [p|]; [|reflexivity].
      destruct (Nat.ltb p (itemCount (fst r))); reflexivity.
Qed.

(** X13.  Every probe that logs an entry hands the whole log to
    [saveLogs]: the [k]-th array handed over by a run is the log before
    the run followed by the first [k + 1] entries added. *)
Theorem saves_are_whole_logs (runs : list (Dom.Document * Z)) (bot : Bot) :
  exists writes,
    saved (probes serialize runs bot) = saved bot ++ writes /\
    length writes = length (found runs) /\
    forall k w,
      nth_error writes k = Some w ->
      w = observedLogs bot ++ firstn (S k) (map (logged serialize) (found runs)).
Proof.
  revert bot. induction runs as [|r runs IH]; intros bot; cbn [probes fold_left].
  - exists []. cbn. rewrite app_nil_r. repeat split. intros [|k] w; discriminate.
  - fold (probes serialize runs (processLogUpdates serialize (fst r) (snd r) bot)).
    destruct (IH (processLogUpdates serialize (fst r) (snd r) bot)) as (writes & E & L & N).
    unfold found in *. cbn [filter].
    destruct (probe_cases (fst r) (snd r) bot) as [[Z0 P] | [NZ P]]; rewrite P in *.
    + rewrite Z0. cbn [Nat.eqb negb]. now exists writes.
    + apply Nat.eqb_neq in NZ. rewrite NZ. cbn [negb map length].
      cbv zeta in E, N. cbn [saved observedLogs] in E, N.
      exists ((observedLogs bot ++ [logged serialize r]) :: writes). split; [|split].
      * rewrite E. now rewrite <- app_assoc.
      * cbn. now rewrite L.
      * intros [|k] w Hk; cbn in Hk.
        -- injection Hk as <-. reflexivity.
        -- rewrite (N k w Hk). cbn [firstn]. now rewrite <- app_assoc.
Qed.

End Log.

(** ** The log on disk: [loadLogs], [saveLogs] and a restart *)

Section Disk.

Variable stringify : list LegiLog -> Js.str.
Variable parse : Js.str -> option (list LegiLog).
Variable serialize : list Dom.Node -> Js.str.

(** X14.  [loadLogs] never drops or alters what is in memory: it leaves
    the logs as they are or adds what it read after them, and touches
    neither the messages sent nor the record of the saves; a file that is
    there is left as it is. *)
Theorem loadLogs_only_adds (writable : bool) (file : File) (bot : Bot) :
  (exists loaded,
     observedLogs (snd (loadLogs parse writable file bot)) = observedLogs bot ++ loaded) /\
  sent (snd (loadLogs parse writable file bot)) = sent bot /\
  saved (snd (loadLogs parse writable file bot)) = saved bot /\
  (file <> Absent -> fst (loadLogs parse writable file bot) = file).
Proof.
  unfold loadLogs, writeFile.
  destruct file as [| |data]; [destruct writable|..]; cbv beta iota zeta;
    try (destruct (parse _) as [logs|]);
    cbn [fst snd pushLogs observedLogs sent saved];
    (split; [first [now exists logs | exists []; now rewrite app_nil_r]|]);
    (split; [reflexivity|]); (split; [reflexivity|]);
    intros N; first [reflexivity | now contradiction N].
Qed.

(** X15.  With no file, [loadLogs] creates one that holds the text of
    the empty array and loads nothing; a file that cannot be read, or
    whose text cannot be parsed, loads nothing and stays as it is. *)
Theorem loadLogs_nothing_to_load (bot : Bot) :
  parse (Js.lit "[]") = Some [] ->
  (fst (loadLogs parse true Absent bot) = Holds (Js.lit "[]") /\
   observedLogs (snd (loadLogs parse true Absent bot)) = observedLogs bot) /\
  loadLogs parse false Absent bot = (Absent, bot) /\
  (forall writable, loadLogs parse writable Unreadable bot = (Unreadable, bot)) /\
  (forall writable data,
     parse data = None -> loadLogs parse writable (Holds data) bot = (Holds data, bot)).
Proof.
  intros E. unfold loadLogs, writeFile. cbv beta iota zeta. rewrite E.
  cbn [fst snd pushLogs observedLogs]. rewrite app_nil_r.
  repeat split. intros writable data ->. reflexivity.
Qed.

Lemma hourly_memory (st : File * Bot) (run : bool * Dom.Document * Z) :
  snd (hourly stringify serialize st run)
  = processLogUpdates serialize (snd (fst run)) (snd run) (snd st).
Proof. destruct run as [[w doc] now]. reflexivity. Qed.

Lemma hourly_idle (st : File * Bot) (w : bool) (doc : Dom.Document) (now : Z) :
  itemCount doc = 0 -> hourly stringify serialize st (w, doc, now) = st.
Proof.
  intros Z0. unfold hourly.
  destruct (probe_cases serialize doc now (snd st)) as [[_ ->] | [NZ _]]; [|contradiction].
  rewrite Nat.ltb_irrefl. now destruct st.
Qed.

Lemma hourly_written (st : File * Bot) (doc : Dom.Document) (now : Z) :
  itemCount doc <> 0 ->
  fst (hourly stringify serialize st (true, doc, now))
  = Holds (stringify (observedLogs (snd (hourly stringify serialize st (true, doc, now))))).
Proof.
  intros NZ. unfold hourly.
  destruct (probe_cases serialize doc now (snd st)) as [[Z0 _] | [_ ->]]; [contradiction|].
  cbv zeta. cbn [saved snd fst]. rewrite length_app. cbn [length].
  replace (Nat.ltb (length (saved (snd st))) (length (saved (snd st)) + 1)) with true
    by (symmetry; apply Nat.ltb_lt; lia).
  reflexivity.
Qed.

(** X16.  A failed save is made up for by the next one that succeeds:
    once a probe that logged an entry could write the file, and no later
    probe that logged one failed to, the file holds the whole log. *)
Theorem file_catches_up (pre post : list (bool * Dom.Document * Z))
    (doc : Dom.Document) (now : Z) (st : File * Bot) :
  itemCount doc <> 0 ->
  Forall (fun r => itemCount (snd (fst r)) = 0 \/ fst (fst r) = true) post ->
  let after := hourlies stringify serialize (pre ++ (true, doc, now) :: post) st in
  fst after = Holds (stringify (observedLogs (snd after))).
Proof.
  intros NZ Hpost. unfold hourlies. rewrite fold_left_app. cbn [fold_left].
  pose proof (hourly_written (fold_left (hourly stringify serialize) pre st) doc now NZ) as S.
  revert S. generalize (hourly stringify serialize
                          (fold_left (hourly stringify serialize) pre st) (true, doc, now)).
  clear st. induction Hpost as [|[[w d] t] post Hr _ IH]; intros st S; cbn [fold_left].
  - exact S.
  - apply IH. cbn [fst snd] in Hr. destruct Hr as [Z0 | ->].
    + now rewrite hourly_idle.
    + destruct (Nat.eq_dec (itemCount d) 0) as [Z0 | NZ'].
      * now rewrite hourly_idle.
      * now apply hourly_written.
Qed.

(** X17.  A restart resumes where the bot stopped: when the file holds
    the whole log and its text parses back to it, [loadLogs] in a new
    process brings the same log to memory, and any page probed next raises
    the alert exactly if it would have raised it without the restart. *)
Theorem restart_resumes (writable : bool) (file : File) (bot : Bot) :
  file = Holds (stringify (observedLogs bot)) ->
  parse (stringify (observedLogs bot)) = Some (observedLogs bot) ->
  let restarted := snd (loadLogs parse writable file freshBot) in
  observedLogs restarted = observedLogs bot /\
  forall doc now,
    notify serialize doc now restarted = notify serialize doc now bot.
Proof.
  intros -> P. unfold loadLogs. cbv beta iota zeta. rewrite P.
  cbn [snd pushLogs observedLogs freshBot app].
  split; [reflexivity|]. intros doc now. rewrite !notify_newVersion. reflexivity.
Qed.

End Disk.

(** ** The address of the page and the date of the marker *)

Section Addresses.

Import JsDate.

Lemma ofUint_digits (d : Decimal.uint) : forallb isDigit (Js.ofUint d) = true.
Proof. induction d; cbn; try reflexivity; exact IHd. Qed.

Lemma pad_digits (n : nat) (z : Z) : forallb isDigit (pad n z) = true.
Proof.
  unfold pad, Js.padStart. rewrite forallb_app. apply andb_true_iff. split.
  - induction (n - length (Js.ofN (Z.to_N z))) as [|k IH]; cbn; [reflexivity | exact IH].
  - apply ofUint_digits.
Qed.

Lemma beforeFirst_cut (sep : N) (a b : Js.str) :
  forallb (fun c => negb (N.eqb c sep)) a = true ->
  beforeFirst sep (a ++ sep :: b) = a.
Proof.
  induction a as [|c a IH]; cbn; intros H.
  - now rewrite N.eqb_refl.
  - apply andb_true_iff in H as [H1 H2]. apply negb_true_iff in H1.
    rewrite H1. now rewrite IH.
Qed.

Lemma digits_no_T (s : Js.str) :
  forallb isDigit s = true -> forallb (fun c => negb (N.eqb c 84)) s = true.
Proof.
  intros H. rewrite forallb_forall in *. intros c Hc. specialize (H c Hc).
  unfold isDigit in H. apply andb_true_iff in H as [_ H]. apply N.leb_le in H.
  apply negb_true_iff, N.eqb_neq. lia.
Qed.

(** The text of the day in an ISO string, sign of the year included. *)
Lemma toISOString_day (t : Z) :
  exists day rest,
    toISOString t = day ++ 84%N :: rest /\
    forallb (fun c => negb (N.eqb c 84)) day = true /\
    day = (let '(y, m, d) := civil (t / 86400000) in
           (if Z.ltb y 0 then Js.lit "-" ++ pad 6 (Z.abs y)
            else if Z.ltb 9999 y then Js.lit "+" ++ pad 6 y
            else pad 4 y) ++ Js.lit "-" ++ pad 2 m ++ Js.lit "-" ++ pad 2 d).
Proof.
  unfold toISOString. cbv zeta.
  destruct (civil (t / 86400000)) as [[y m] d].
  eexists.
  exists (pad 2 (t mod 86400000 / 3600000)
          ++ Js.lit ":" ++ pad 2 ((t mod 86400000 / 60000) mod 60)
          ++ Js.lit ":" ++ pad 2 ((t mod 86400000 / 1000) mod 60)
          ++ Js.lit "." ++ pad 3 (t mod 86400000 mod 1000) ++ Js.lit "Z").
  split; [|split; [|reflexivity]].
  - rewrite <- !app_assoc. reflexivity.
  - rewrite !forallb_app.
    rewrite !(digits_no_T _ (pad_digits _ _)).
    destruct (Z.ltb y 0); [|destruct (Z.ltb 9999 y)];
      rewrite ?forallb_app, ?(digits_no_T _ (pad_digits _ _)); reflexivity.
Qed.


Lemma ltb_irrefl (s : Js.str) : Js.ltb s s = false.
Proof.
  induction s as [|c s IH]; cbn; [reflexivity|].
  now rewrite N.ltb_irrefl, N.eqb_refl, IH.
Qed.

Lemma pad_injective (w : nat) (top : Z) :
  (forall a b, (0 <= a < b)%Z -> (b <= top)%Z ->
     Js.ltb (pad w a) (pad w b) = true /\ length (pad w a) = w /\ length (pad w b) = w) ->
  forall a b, (0 <= a <= top)%Z -> (0 <= b <= top)%Z -> pad w a = pad w b -> a = b.
Proof.
  intros O a b Ha Hb E.
  destruct (Z.lt_trichotomy a b) as [L | [L | L]]; [|exact L|].
  - destruct (O a b) as [T _]; [lia | lia|]. rewrite E, ltb_irrefl in T. discriminate.
  - destruct (O b a) as [T _]; [lia | lia|]. rewrite E, ltb_irrefl in T. discriminate.
Qed.

Lemma app_same_length {A : Type} (a a' b b' : list A) :
  length a = length a' -> a ++ b = a' ++ b' -> a = a' /\ b = b'.
Proof.
  revert a'. induction a as [|x a IH]; intros [|x' a'] L E; cbn in *; try discriminate.
  - now split.
  - injection L as L. injection E as -> E. destruct (IH a' L E) as [-> ->]. now split.
Qed.

Lemma year_digits (y : Z) :
  (1000 <= y <= 9999)%Z -> Js.ofN (Z.to_N y) = pad 4 y.
Proof.
  intros H. unfold pad, Js.padStart.
  assert (C : checkUpTo (fun y => Z.ltb y 1000
                                  || Nat.eqb (length (Js.ofN (Z.to_N y))) 4) 10000 = true)
    by (vm_compute; reflexivity).
  pose proof (@checkUpTo_sound _ _ C y ltac:(lia)) as P.
  apply orb_true_iff in P as [P | P]; [apply Z.ltb_lt in P; lia|].
  apply Nat.eqb_eq in P. now rewrite P.
Qed.

Lemma todayFormatted_fields (d : Local) :
  fourDigitDay d = true ->
  todayFormatted d
  = pad 2 (Z.of_N (getDate d)) ++ Js.lit "/" ++ pad 2 (Z.of_N (getMonth d + 1))
    ++ Js.lit "/" ++ pad 4 (Z.of_N (getFullYear d)).
Proof.
  unfold fourDigitDay. rewrite !andb_true_iff, !N.leb_le. intros ((((D1 & D2) & M) & Y1) & Y2).
  unfold todayFormatted. rewrite <- (year_digits (Z.of_N (getFullYear d))) by lia.
  unfold pad. now rewrite !N2Z.id.
Qed.

Lemma digitsValue_pad2 (n : N) :
  (n <= 99)%N -> digitsValue (pad 2 (Z.of_N n)) = n.
Proof.
  intros H.
  assert (C : checkUpTo (fun z => N.eqb (digitsValue (pad 2 z)) (Z.to_N z)) 100 = true)
    by (vm_compute; reflexivity).
  pose proof (@checkUpTo_sound _ _ C (Z.of_N n) ltac:(lia)) as P.
  apply N.eqb_eq in P. now rewrite N2Z.id in P.
Qed.

Lemma digitsValue_pad4 (n : N) :
  (n <= 9999)%N -> digitsValue (pad 4 (Z.of_N n)) = n.
Proof.
  intros H.
  assert (C : checkUpTo (fun z => N.eqb (digitsValue (pad 4 z)) (Z.to_N z)) 10000 = true)
    by (vm_compute; reflexivity).
  pose proof (@checkUpTo_sound _ _ C (Z.of_N n) ltac:(lia)) as P.
  apply N.eqb_eq in P. now rewrite N2Z.id in P.
Qed.

(** X19.  For a calendar day in a year of four digits, the date that
    [parseLegiData] looks for is [DD/MM/YYYY]: two digits that write the
    day of the month, a slash, two digits that write the month counted
    from 1, a slash, four digits that write the year, ten code units in
    all; two different days never give the same text. *)
Theorem todayFormatted_shape (d d' : Local) :
  fourDigitDay d = true -> fourDigitDay d' = true ->
  (exists dd mm yyyy,
     todayFormatted d = dd ++ Js.lit "/" ++ mm ++ Js.lit "/" ++ yyyy /\
     length dd = 2 /\ length mm = 2 /\ length yyyy = 4 /\
     forallb isDigit (dd ++ mm ++ yyyy) = true /\
     digitsValue dd = getDate d /\
     digitsValue mm = (getMonth d + 1)%N /\
     digitsValue yyyy = getFullYear d) /\
  length (todayFormatted d) = 10 /\
  (todayFormatted d = todayFormatted d' -> d = d').
Proof.
  intros H H'. rewrite (todayFormatted_fields d H), (todayFormatted_fields d' H').
  unfold fourDigitDay in H, H'. rewrite !andb_true_iff, !N.leb_le in H, H'.
  destruct H as ((((D1 & D2) & M) & Y1) & Y2).
  destruct H' as ((((D1' & D2') & M') & Y1') & Y2').
  assert (L2 : forall a, (0 <= a <= 99)%Z -> length (pad 2 a) = 2)
    by (apply (@field_length 2 99 ltac:(lia) pad2_ordered)).
  assert (L4 : forall a, (0 <= a <= 9999)%Z -> length (pad 4 a) = 4)
    by (apply (@field_length 4 9999 ltac:(lia) pad4_ordered)).
  split; [|split].
  - eexists; eexists; eexists. split; [reflexivity|].
    rewrite !L2, L4 by lia.
    rewrite !digitsValue_pad2, digitsValue_pad4 by lia.
    repeat split.
    rewrite !forallb_app, !pad_digits. reflexivity.
  - rewrite !length_app, !L2, L4 by lia. reflexivity.
  - intros E.
    apply app_same_length in E as [E1 E]; [|rewrite !L2 by lia; reflexivity].
    apply app_same_length in E as [_ E]; [|reflexivity].
    apply app_same_length in E as [E2 E]; [|rewrite !L2 by lia; reflexivity].
    apply app_same_length in E as [_ E3]; [|reflexivity].
    apply (pad_injective 2 99 pad2_ordered) in E1; [|lia|lia].
    apply (pad_injective 2 99 pad2_ordered) in E2; [|lia|lia].
    apply (pad_injective 4 9999 pad4_ordered) in E3; [|lia|lia].
    destruct d as [a b c], d' as [a' b' c']. cbn [getDate getMonth getFullYear] in *.
    f_equal; lia.
Qed.

End Addresses.

(** ** The fields of a snapshot and the lines they render to *)

Section Fields.

Import Extracted.

Lemma trimStart_head (s : Js.str) :
  match Js.trimStart s with
  | [] => True
  | c :: _ => Js.isWhiteSpace c = false
  end.
Proof.
  induction s as [|c s IH]; cbn [Js.trimStart]; [exact I|].
  destruct (Js.isWhiteSpace c) eqn:W; [exact IH | exact W].
Qed.

Lemma trimStart_keeps (x y : Js.str) (c : N) :
  Js.isWhiteSpace c = false ->
  Js.trimStart (x ++ c :: y) = Js.trimStart x ++ c :: y.
Proof.
  intros W. induction x as [|a x IH]; cbn [Js.trimStart app].
  - now rewrite W.
  - destruct (Js.isWhiteSpace a); [exact IH | reflexivity].
Qed.

Lemma trim_isTrimmed (s : Js.str) : isTrimmed (Js.trim s) = true.
Proof.
  unfold Js.trim, Js.trimEnd.
  pose proof (trimStart_head s) as H.
  destruct (Js.trimStart s) as [|c t]; [reflexivity|].
  cbn [rev]. rewrite (trimStart_keeps (rev t) [] c H).
  pose proof (trimStart_head (rev t)) as H'.
  rewrite rev_app_distr. cbn [rev app].
  unfold isTrimmed. rewrite H. cbn [negb andb].
  destruct (Js.trimStart (rev t)) as [|a u].
  - cbn. now rewrite H.
  - cbn [rev]. change (c :: rev u ++ [a]) with ((c :: rev u) ++ [a]).
    rewrite last_last. now rewrite H'.
Qed.

Lemma forallb_map_all {A B : Type} (p : B -> bool) (f : A -> B) (l : list A) :
  (forall a, p (f a) = true) -> forallb p (map f l) = true.
Proof.
  intros H. induction l as [|a l IH]; cbn; [reflexivity|]. now rewrite H, IH.
Qed.

(** X20.  In a snapshot that [parseLegiData] returns, no text field begins
    or ends with white space: the date, and the title, the action, the
    section names and the article numbers of every modification. *)
Theorem parseLegiData_trimmed (today : JsDate.Local) (doc : Dom.Document)
    (data : ParsedData) :
  parseLegiData today doc = Some data -> trimmedData data = true.
Proof.
  rewrite parseLegiData_unfold.
  destruct (Dom.query doc _) as [|v vs]; [discriminate|].
  destruct (Dom.first _) as [|c cs]; [discriminate|].
  cbv zeta. intros [= <-]. unfold trimmedData. cbn [date modifications].
  rewrite trim_isTrimmed. cbn [andb].
  apply forallb_map_all. intros b. unfold trimmedItem, modificationOf.
  cbv zeta. cbn [title action articles]. rewrite !trim_isTrimmed. cbn [andb].
  apply forallb_map_all. intros i. unfold trimmedGroup, articleGroupOf.
  cbn [sectionName articleNumbers]. rewrite trim_isTrimmed. cbn [andb].
  apply forallb_map_all. intros a. apply trim_isTrimmed.
Qed.

Lemma startsWith_app (a b : Js.str) : Js.startsWith (a ++ b) a = true.
Proof.
  induction a as [|c a IH]; cbn; [now destruct b|]. now rewrite N.eqb_refl, IH.
Qed.

Lemma underSite_plus (v : option Js.str) : underSite (Js.plus DEFAULT_LEGI_URL v) = true.
Proof. apply startsWith_app. Qed.

(** X21.  Every address of a snapshot that [parseLegiData] returns lies
    under the address of the site, whatever the page gave for [href],
    also when the attribute is missing. *)
Theorem parseLegiData_addresses (today : JsDate.Local) (doc : Dom.Document)
    (data : ParsedData) :
  parseLegiData today doc = Some data -> siteData data = true.
Proof.
  rewrite parseLegiData_unfold.
  destruct (Dom.query doc _) as [|v vs]; [discriminate|].
  destruct (Dom.first _) as [|c cs]; [discriminate|].
  cbv zeta. intros [= <-]. unfold siteData. cbn [dateUrl modifications].
  unfold Js.plus at 1. rewrite startsWith_app. cbn [andb].
  apply forallb_map_all. intros b. unfold siteItem, modificationOf.
  cbv zeta. cbn [url articles]. rewrite underSite_plus. cbn [andb].
  apply forallb_map_all. intros i. unfold siteGroup, articleGroupOf.
  cbn [sectionUrl articleUrls]. rewrite underSite_plus. cbn [andb].
  apply forallb_map_all. intros a. apply underSite_plus.
Qed.

Lemma articleLinksFrom_aligned (links before : Dom.Cheerio) :
  articleLinksFrom (length before) (map articleNumberOf links)
    (map articleUrlOf (before ++ links))
  = map linkText links.
Proof.
  revert before. induction links as [|a links IH]; intros before; [reflexivity|].
  cbn [map articleLinksFrom]. f_equal.
  - rewrite map_app, nth_error_app2 by (rewrite length_map; lia).
    rewrite length_map, Nat.sub_diag. reflexivity.
  - specialize (IH (before ++ [a])). rewrite length_app, <- app_assoc in IH.
    cbn [length app] in IH. rewrite Nat.add_1_r in IH. exact IH.
Qed.

(** X22.  The line [formatEmbeds] writes for an article group that
    [parseLegiData] read from a list item: each article number is linked
    to the address of its own link, in the order of the page, and the
    section follows only when its name is not empty; for an item without
    section link the line ends after the articles, so that the address
    the parser stored for the missing section is never shown. *)
Theorem group_line (itemEl : Dom.Path * Dom.Node) (content : Js.str) :
  let g := articleGroupOf itemEl in
  appendArticleGroup content g
  = content ++ [8226%N] ++ Js.lit " Article "
    ++ Js.join (Js.lit ", ") (map linkText (articleLinksOf itemEl))
    ++ (if Js.truthy (sectionName g)
        then Js.lit " - [" ++ sectionName g ++ Js.lit "](" ++ sectionUrl g ++ Js.lit ")"
        else [])
    ++ nl /\
  (sectionLinkOf itemEl = [] ->
   appendArticleGroup content g
   = content ++ [8226%N] ++ Js.lit " Article "
     ++ Js.join (Js.lit ", ") (map linkText (articleLinksOf itemEl)) ++ nl).
Proof.
  cbv zeta.
  assert (E : appendArticleGroup content (articleGroupOf itemEl)
              = content ++ [8226%N] ++ Js.lit " Article "
                ++ Js.join (Js.lit ", ") (map linkText (articleLinksOf itemEl))
                ++ (if Js.truthy (sectionName (articleGroupOf itemEl))
                    then Js.lit " - [" ++ sectionName (articleGroupOf itemEl) ++ Js.lit "]("
                         ++ sectionUrl (articleGroupOf itemEl) ++ Js.lit ")"
                    else [])
                ++ nl).
  { unfold appendArticleGroup. cbv zeta.
    change (articleLinksFrom 0 (articleNumbers (articleGroupOf itemEl))
              (articleUrls (articleGroupOf itemEl)))
      with (articleLinksFrom (length (@nil (Dom.Path * Dom.Node)))
              (map articleNumberOf (articleLinksOf itemEl))
              (map articleUrlOf ([] ++ articleLinksOf itemEl))).
    rewrite articleLinksFrom_aligned.
    destruct (Js.truthy (sectionName (articleGroupOf itemEl)));
      rewrite <- ?app_assoc; reflexivity. }
  split; [exact E|].
  intros S. rewrite E. unfold articleGroupOf at 1. cbn [sectionName].
  rewrite S. reflexivity.
Qed.

End Fields.

(** ** The text of a chunk *)

Section ChunkText.

Variable maxLength : nat.
Variable clock : nat -> Z.
Variable validUrl : Js.str -> bool.
Variable data : ParsedData.

Lemma appendArticleGroup_ends (content : Js.str) (g : Article) :
  exists t, appendArticleGroup content g = t ++ nl.
Proof. unfold appendArticleGroup. cbv zeta. eexists. reflexivity. Qed.

Lemma modifContent_ends (m : ModificationItem) : exists t, modifContent m = t ++ nl.
Proof.
  unfold modifContent. cbv zeta.
  set (c := (_ ++ _) ++ _).
  assert (C : exists t, c = t ++ nl).
  { subst c. eexists. rewrite !app_assoc. reflexivity. }
  clearbody c. revert c C.
  induction (articles m) as [|g gs IH]; intros c C; cbn [fold_left]; [exact C|].
  apply IH. apply appendArticleGroup_ends.
Qed.

Lemma modifContent_begins (m : ModificationItem) :
  exists t, modifContent m = nl ++ Js.lit "### " ++ t.
Proof.
  unfold modifContent. cbv zeta.
  match goal with
  | |- context [fold_left appendArticleGroup ?a ?c] =>
      destruct (fold_appendArticleGroup_extends a c) as [t ->]
  end.
  eexists. rewrite <- !app_assoc. reflexivity.
Qed.

(** X23.  The description of a chunk that [formatEmbeds] returns begins
    with a line break and a heading of level three and ends with a line
    break: the cuts between chunks fall between whole blocks. *)
Theorem chunk_text (chunks : list EmbedBuilder) (e : EmbedBuilder) :
  formatEmbedsWithin maxLength clock validUrl data = Some chunks ->
  In e chunks ->
  Js.startsWith (body e) (nl ++ Js.lit "### ") = true /\ last (body e) 0%N = 10%N.
Proof.
  intros R H. apply formatEmbeds_groups in R as [-> N].
  apply (in_map body) in H.
  rewrite sealedFrom_bodies in H.
  apply in_map_iff in H as (g & <- & Hg).
  rewrite Forall_forall in N. specialize (N g Hg).
  destruct g as [|m g]; [contradiction|]. split.
  - unfold render. cbn [flat_map].
    destruct (modifContent_begins m) as [t ->].
    rewrite <- !app_assoc.
    change (nl ++ Js.lit "### " ++ t ++ flat_map modifContent g)
      with ((nl ++ Js.lit "### ") ++ t ++ flat_map modifContent g).
    apply startsWith_app.
  - destruct (@exists_last _ (m :: g) ltac:(discriminate)) as (g0 & z & ->).
    unfold render. rewrite flat_map_app. cbn [flat_map]. rewrite app_nil_r.
    destruct (modifContent_ends z) as [t ->].
    rewrite app_assoc. apply last_last.
Qed.

End ChunkText.

(** ** The properties above on the sample runs *)

(** A block that is itself the [h4.txt-title] counts as titled: the
    context of [find] may stand for the outermost compound. *)
Example parse_selfTitled :
  option_map (fun d => map title (modifications d))
    (parseLegiData Sample.today Scenario.selfTitledPage)
  = Some [Js.lit "Title Z"; Js.lit "Decree X"].
Proof. vm_compute. reflexivity. Qed.

(** A date of more than 253 code units makes a title the builder
    refuses: [formatEmbeds] throws even with nothing to format. *)
Example long_date_throws :
  formatEmbeds Sample.clock Sample.validUrl
    {| date := repeat 48%N 254; dateUrl := dateUrl Sample.twoBlocks; modifications := [] |}
  = None.
Proof. vm_compute. reflexivity. Qed.


Lemma chunk_headers_witness :
  exists chunks e,
    formatEmbedsWithin 50 Sample.clock Sample.validUrl Sample.twoBlocks = Some chunks /\
    nth_error chunks 1 = Some e /\
    embedTitle e = calendar ++ Js.lit " " ++ date Sample.twoBlocks ++ Js.lit " (suite)" /\
    embedUrl e = dateUrl Sample.twoBlocks /\
    embedColor e = EMBED_COLOR /\
    embedTimestamp e = Sample.clock 1 /\
    exists d, description e = Some d.
Proof.
  eexists. eexists. split; [vm_compute; reflexivity|]. split; [reflexivity|].
  eapply (chunk_headers 50 Sample.clock Sample.validUrl Sample.twoBlocks _ 1 _);
    [vm_compute; reflexivity | reflexivity].
Defined.

Lemma no_chunk_iff_witness :
  exists chunks,
    formatEmbedsWithin 50 Sample.clock Sample.validUrl Sample.twoBlocks = Some chunks /\
    (chunks = [] <-> modifications Sample.twoBlocks = []).
Proof.
  destruct (formatEmbedsWithin 50 Sample.clock Sample.validUrl Sample.twoBlocks)
    as [chunks|] eqn:E; [|vm_compute in E; discriminate].
  exists chunks. split; [reflexivity|].
  exact (no_chunk_iff 50 Sample.clock Sample.validUrl Sample.twoBlocks chunks E).
Defined.

Lemma long_chunk_is_one_block_witness :
  exists chunks,
    formatEmbeds Sample.clock Sample.validUrl Sample.mixedSnapshot = Some chunks /\
    Forall (fun e => length (body e) <= MAX_DESC_LENGTH \/
                     exists m, In m (modifications Sample.mixedSnapshot)
                               /\ body e = modifContent m)
      chunks.
Proof.
  destruct (formatEmbeds Sample.clock Sample.validUrl Sample.mixedSnapshot)
    as [chunks|] eqn:E; [|vm_compute in E; discriminate].
  exists chunks. split; [reflexivity|].
  exact (long_chunk_is_one_block MAX_DESC_LENGTH Sample.clock Sample.validUrl
           Sample.mixedSnapshot chunks E).
Defined.

Lemma no_needless_cut_witness :
  exists chunks,
    formatEmbedsWithin 50 Sample.clock Sample.validUrl Sample.twoBlocks = Some chunks /\
    exists groups : list (list ModificationItem),
      concat groups = modifications Sample.twoBlocks /\
      map body chunks = map render groups /\
      forall i a b,
        nth_error groups i = Some a -> nth_error groups (S i) = Some b ->
        exists m rest, b = m :: rest /\
                       50 < length (render a) + length (modifContent m).
Proof.
  destruct (formatEmbedsWithin 50 Sample.clock Sample.validUrl Sample.twoBlocks)
    as [chunks|] eqn:E; [|vm_compute in E; discriminate].
  exists chunks. split; [reflexivity|].
  exact (no_needless_cut 50 Sample.clock Sample.validUrl Sample.twoBlocks chunks E).
Defined.

Lemma chunk_count_witness :
  exists chunks,
    formatEmbedsWithin 50 Sample.clock Sample.validUrl Sample.twoBlocks = Some chunks /\
    length chunks <= length (modifications Sample.twoBlocks).
Proof.
  destruct (formatEmbedsWithin 50 Sample.clock Sample.validUrl Sample.twoBlocks)
    as [chunks|] eqn:E; [|vm_compute in E; discriminate].
  exists chunks. split; [reflexivity|].
  exact (chunk_count 50 Sample.clock Sample.validUrl Sample.twoBlocks chunks E).
Defined.

Lemma daily_notice_witness :
  ~ Dom.occurs Scenario.stalePage (Sel.versionToday (todayFormatted Sample.today)) /\
  fst (processLegiUpdates Sample.today Sample.clock Sample.validUrl Scenario.owner
         Scenario.willing Scenario.stalePage)
  = [Plain noChange].
Proof.
  assert (H : ~ Dom.occurs Scenario.stalePage
                  (Sel.versionToday (todayFormatted Sample.today)))
    by (apply query_nil_iff; vm_compute; reflexivity).
  split; [exact H|].
  exact (daily_notice Sample.today Sample.clock Sample.validUrl Scenario.owner
           Scenario.willing Scenario.stalePage (or_introl H)).
Defined.

Lemma daily_messages_witness :
  let handed := fst (processLegiUpdates Sample.today Sample.clock Sample.validUrl
                       Scenario.owner Scenario.willing Scenario.twoChunkPage) in
  parseLegiData Sample.today Scenario.twoChunkPage = Some Scenario.twoChunks /\
  exists embeds,
    formatEmbeds Sample.clock Sample.validUrl Scenario.twoChunks = Some embeds /\
    snd (processLegiUpdates Sample.today Sample.clock Sample.validUrl Scenario.owner
           Scenario.willing Scenario.twoChunkPage) = true /\
    length handed = length embeds /\
    forall k e,
      nth_error embeds k = Some e ->
      nth_error handed k
      = Some (Rich (if isSet Scenario.owner && Nat.eqb k 0
                    then Some (mention Scenario.owner) else None) [e]).
Proof.
  intros handed.
  assert (P : parseLegiData Sample.today Scenario.twoChunkPage = Some Scenario.twoChunks)
    by (vm_compute; reflexivity).
  pose proof (daily_messages Sample.today Sample.clock Sample.validUrl Scenario.owner
                Scenario.willing Scenario.twoChunkPage Scenario.twoChunks P
                (fun _ => eq_refl)) as T.
  destruct (formatEmbeds Sample.clock Sample.validUrl Scenario.twoChunks)
    as [embeds|] eqn:E; [|vm_compute in E; discriminate].
  split; [exact P|]. exists embeds. split; [reflexivity|]. exact T.
Defined.

Lemma daily_silence_witness :
  let container :=
    nth 0 (Dom.query Scenario.untitledPage Sel.currentVersion) ([], Dom.Text []) in
  Dom.occurs Scenario.untitledPage (Sel.versionToday (todayFormatted Sample.today)) /\
  Dom.first (Dom.query Scenario.untitledPage Sel.currentVersion) = [container] /\
  (exists b, Dom.below container Sel.contentDetailTimeline b) /\
  (forall b a, Dom.below container Sel.contentDetailTimeline b ->
               ~ Dom.below b Sel.titleLink a) /\
  exists data,
    parseLegiData Sample.today Scenario.untitledPage = Some data /\
    modifications data = [] /\
    processLegiUpdates Sample.today Sample.clock Sample.validUrl Scenario.owner
      Scenario.willing Scenario.untitledPage
    = ([], headerOk Sample.validUrl (firstHeader Sample.clock data)).
Proof.
  intros container.
  assert (M : Dom.occurs Scenario.untitledPage
                (Sel.versionToday (todayFormatted Sample.today)))
    by (apply occurs_iff; vm_compute; discriminate).
  assert (C : Dom.first (Dom.query Scenario.untitledPage Sel.currentVersion) = [container])
    by (vm_compute; reflexivity).
  assert (B : forall b a, Dom.below container Sel.contentDetailTimeline b ->
                          ~ Dom.below b Sel.titleLink a).
  { intros b a Hb Ha. apply find_spec in Hb. vm_compute in Hb.
    destruct Hb as [<- | []]. apply find_spec in Ha. vm_compute in Ha. exact Ha. }
  split; [exact M|]. split; [exact C|]. split.
  { eexists. apply find_spec. vm_compute. left. reflexivity. }
  split; [exact B|].
  exact (daily_silence Sample.today Sample.clock Sample.validUrl Scenario.owner
           Scenario.willing Scenario.untitledPage container M C B).
Defined.

Lemma daily_stops_at_rejection_witness :
  exists embeds,
    parseLegiData Sample.today Scenario.twoChunkPage = Some Scenario.twoChunks /\
    formatEmbeds Sample.clock Sample.validUrl Scenario.twoChunks = Some embeds /\
    1 < length embeds /\
    Scenario.firstOnly 0 = true /\
    Scenario.firstOnly 1 = false /\
    snd (processLegiUpdates Sample.today Sample.clock Sample.validUrl Scenario.owner
           Scenario.firstOnly Scenario.twoChunkPage) = false /\
    length (fst (processLegiUpdates Sample.today Sample.clock Sample.validUrl
                   Scenario.owner Scenario.firstOnly Scenario.twoChunkPage)) = 2.
Proof.
  assert (P : parseLegiData Sample.today Scenario.twoChunkPage = Some Scenario.twoChunks)
    by (vm_compute; reflexivity).
  destruct (formatEmbeds Sample.clock Sample.validUrl Scenario.twoChunks)
    as [embeds|] eqn:E; [|vm_compute in E; discriminate].
  assert (L : 1 < length embeds).
  { assert (C : option_map (@length _)
                  (formatEmbeds Sample.clock Sample.validUrl Scenario.twoChunks) = Some 2)
      by (vm_compute; reflexivity).
    rewrite E in C. cbn [option_map] in C. injection C as ->. lia. }
  assert (A : forall j, j < 1 -> Scenario.firstOnly j = true)
    by (intros [|j] Hj; [reflexivity | lia]).
  exists embeds. split; [exact P|]. split; [reflexivity|]. split; [exact L|].
  split; [reflexivity|]. split; [reflexivity|].
  exact (daily_stops_at_rejection Sample.today Sample.clock Sample.validUrl Scenario.owner
           Scenario.firstOnly Scenario.twoChunkPage Scenario.twoChunks embeds 1 P E L A
           eq_refl).
Defined.

Lemma loadLogs_nothing_to_load_witness :
  Scenario.parse (Js.lit "[]") = Some [] /\
  (fst (loadLogs Scenario.parse true Absent Sample.seen) = Holds (Js.lit "[]") /\
   observedLogs (snd (loadLogs Scenario.parse true Absent Sample.seen))
   = observedLogs Sample.seen) /\
  loadLogs Scenario.parse false Absent Sample.seen = (Absent, Sample.seen) /\
  (forall writable,
     loadLogs Scenario.parse writable Unreadable Sample.seen = (Unreadable, Sample.seen)) /\
  (forall writable data,
     Scenario.parse data = None ->
     loadLogs Scenario.parse writable (Holds data) Sample.seen = (Holds data, Sample.seen)).
Proof.
  assert (P : Scenario.parse (Js.lit "[]") = Some []) by (vm_compute; reflexivity).
  split; [exact P|].
  exact (loadLogs_nothing_to_load Scenario.parse Sample.seen P).
Defined.

Lemma file_catches_up_witness :
  let runs := Scenario.evening ++ (true, Sample.after, 1767736800000%Z) :: Scenario.night in
  let after := hourlies Scenario.stringify Sample.serialize runs (Absent, freshBot) in
  itemCount Sample.after <> 0 /\
  Forall (fun r => itemCount (snd (fst r)) = 0 \/ fst (fst r) = true) Scenario.night /\
  length (observedLogs (snd after)) = 2 /\
  fst after = Holds (Scenario.stringify (observedLogs (snd after))).
Proof.
  intros runs after.
  assert (I : itemCount Sample.after <> 0) by (vm_compute; discriminate).
  assert (F : Forall (fun r => itemCount (snd (fst r)) = 0 \/ fst (fst r) = true)
                Scenario.night)
    by (repeat constructor; left; vm_compute; reflexivity).
  split; [exact I|]. split; [exact F|]. split; [vm_compute; reflexivity|].
  exact (file_catches_up Scenario.stringify Sample.serialize Scenario.evening Scenario.night
           Sample.after 1767736800000%Z (Absent, freshBot) I F).
Defined.

Lemma restart_resumes_witness :
  let file := Holds (Scenario.stringify (observedLogs Sample.seen)) in
  let restarted := snd (loadLogs Scenario.parse true file freshBot) in
  Scenario.parse (Scenario.stringify (observedLogs Sample.seen))
  = Some (observedLogs Sample.seen) /\
  observedLogs restarted = observedLogs Sample.seen /\
  forall doc now,
    notify Sample.serialize doc now restarted = notify Sample.serialize doc now Sample.seen.
Proof.
  intros file restarted.
  assert (P : Scenario.parse (Scenario.stringify (observedLogs Sample.seen))
              = Some (observedLogs Sample.seen))
    by (vm_compute; reflexivity).
  split; [exact P|].
  exact (restart_resumes Scenario.stringify Scenario.parse Sample.serialize true file
           Sample.seen eq_refl P).
Defined.


Lemma todayFormatted_shape_witness :
  fourDigitDay Sample.today = true /\
  fourDigitDay Scenario.tomorrow = true /\
  todayFormatted Sample.today = Js.lit "07/01/2026" /\
  (exists dd mm yyyy,
     todayFormatted Sample.today = dd ++ Js.lit "/" ++ mm ++ Js.lit "/" ++ yyyy /\
     length dd = 2 /\ length mm = 2 /\ length yyyy = 4 /\
     forallb isDigit (dd ++ mm ++ yyyy) = true /\
     digitsValue dd = 7%N /\ digitsValue mm = 1%N /\ digitsValue yyyy = 2026%N) /\
  length (todayFormatted Sample.today) = 10 /\
  todayFormatted Sample.today <> todayFormatted Scenario.tomorrow.
Proof.
  split; [reflexivity|]. split; [reflexivity|]. split; [reflexivity|].
  destruct (todayFormatted_shape Sample.today Scenario.tomorrow eq_refl eq_refl)
    as (F & L & I).
  split; [exact F|]. split; [exact L|].
  intros E. apply I in E. discriminate E.
Defined.

Lemma parseLegiData_trimmed_witness :
  parseLegiData Sample.today Sample.after = Some Sample.snapshot /\
  trimmedData Sample.snapshot = true.
Proof.
  assert (P : parseLegiData Sample.today Sample.after = Some Sample.snapshot)
    by (vm_compute; reflexivity).
  split; [exact P|].
  exact (parseLegiData_trimmed Sample.today Sample.after Sample.snapshot P).
Defined.

Lemma parseLegiData_addresses_witness :
  parseLegiData Sample.today Sample.after = Some Sample.snapshot /\
  siteData Sample.snapshot = true.
Proof.
  assert (P : parseLegiData Sample.today Sample.after = Some Sample.snapshot)
    by (vm_compute; reflexivity).
  split; [exact P|].
  exact (parseLegiData_addresses Sample.today Sample.after Sample.snapshot P).
Defined.

Lemma group_line_witness :
  Extracted.sectionLinkOf Sample.orderItem = [] /\
  appendArticleGroup [] (Extracted.articleGroupOf Sample.orderItem)
  = [8226%N] ++ Js.lit " Article "
    ++ Js.join (Js.lit ", ") (map linkText (Extracted.articleLinksOf Sample.orderItem))
    ++ nl.
Proof.
  assert (S : Extracted.sectionLinkOf Sample.orderItem = []) by (vm_compute; reflexivity).
  split; [exact S|].
  exact (proj2 (group_line Sample.orderItem []) S).
Defined.

Lemma chunk_text_witness :
  exists chunks e,
    formatEmbedsWithin 50 Sample.clock Sample.validUrl Sample.twoBlocks = Some chunks /\
    In e chunks /\
    Js.startsWith (body e) (nl ++ Js.lit "### ") = true /\ last (body e) 0%N = 10%N.
Proof.
  eexists. eexists. split; [vm_compute; reflexivity|].
  split; [right; left; reflexivity|].
  eapply (chunk_text 50 Sample.clock Sample.validUrl Sample.twoBlocks);
    [vm_compute; reflexivity | right; left; reflexivity].
Defined.
